(** * product-comparator: field extraction, field comparison and reports

    A shallow embedding of the three scripts of the repository

    - [iter1.py] and [product-comparator/final ig.py]: the table of
      pattern rules [FIELD_RULES], [extract_details] and the report builder
      [compare_strings];
    - [product-comparator/main.py]: [preprocess], the six normalised
      extractors, [compare_field], [fields_missing], [call_llm_groq] and
      [compare_strings].

    Text is modelled as a string of 8-bit characters.  The character
    classes, case folding and white space are those of Python on the ASCII
    range; a character above 127 is in no class ([\w], [\d], [\s]) and has
    no case. *)

From Stdlib Require Import ZArith NArith List String Ascii Bool Lia.
From Stdlib Require Import DecimalString Floats.
From stdpp Require Import base option list gmap strings.

Local Open Scope string_scope.
Local Open Scope nat_scope.

(* The decimal literals 0.85 and 0.2 stand for the nearest doubles, as
   they do in Python. *)
Set Warnings "-inexact-float,-register-all".

(** ** Python strings *)

Module PyStr.

Definition code (a : ascii) : nat := nat_of_ascii a.

Definition in_range (lo hi : nat) (a : ascii) : bool :=
  (lo <=? code a) && (code a <=? hi).

Definition is_digit (a : ascii) : bool := in_range 48 57 a.
Definition is_upper (a : ascii) : bool := in_range 65 90 a.
Definition is_lower (a : ascii) : bool := in_range 97 122 a.

(** [str.isspace] on the ASCII range: TAB, LF, VT, FF, CR, the four
    separators FS GS RS US, and the space. *)
Definition is_space (a : ascii) : bool :=
  in_range 9 13 a || in_range 28 31 a || (code a =? 32).

(** [\w]: letters, digits and the underscore. *)
Definition is_word (a : ascii) : bool :=
  is_digit a || is_upper a || is_lower a || (code a =? 95).

Definition to_lower (a : ascii) : ascii :=
  if is_upper a then ascii_of_nat (code a + 32) else a.

Definition to_upper (a : ascii) : ascii :=
  if is_lower a then ascii_of_nat (code a - 32) else a.

Fixpoint map_chars (f : ascii -> ascii) (s : string) : string :=
  match s with
  | EmptyString => EmptyString
  | String a s' => String (f a) (map_chars f s')
  end.

(** [s.lower()] and [s.upper()], as they act on ASCII text: the letters
    [A-Z] and [a-z] change, every other character stays. *)
Definition lower : string -> string := map_chars to_lower.
Definition upper : string -> string := map_chars to_upper.

Fixpoint rev_onto (s acc : string) : string :=
  match s with
  | EmptyString => acc
  | String a s' => rev_onto s' (String a acc)
  end.

Definition rev (s : string) : string := rev_onto s EmptyString.

Fixpoint lstrip (s : string) : string :=
  match s with
  | EmptyString => EmptyString
  | String a s' => if is_space a then lstrip s' else s
  end.

(** [s.strip()] *)
Definition strip (s : string) : string := rev (lstrip (rev (lstrip s))).

(** [s.startswith(p)] *)
Fixpoint starts_with (p s : string) : bool :=
  match p, s with
  | EmptyString, _ => true
  | String a p', String b s' => Ascii.eqb a b && starts_with p' s'
  | String _ _, EmptyString => false
  end.

(** [sub in s] *)
Fixpoint contains (sub s : string) : bool :=
  starts_with sub s ||
  match s with
  | EmptyString => false
  | String _ s' => contains sub s'
  end.

(** [s.replace(old, new)] for a non-empty [old]: the occurrences are
    replaced from the left and do not overlap; [skip] counts the
    characters of an occurrence still to be dropped. *)
Fixpoint replace_from (old new s : string) (skip : nat) : string :=
  match s with
  | EmptyString => EmptyString
  | String a s' =>
      match skip with
      | S n => replace_from old new s' n
      | O =>
          if starts_with old s
          then new ++ replace_from old new s' (String.length old - 1)
          else String a (replace_from old new s' 0)
      end
  end.

Definition replace (old new s : string) : string := replace_from old new s 0.

(** The double quote, which the formatters put around inline values. *)
Definition dq : string := String (ascii_of_nat 34) EmptyString.

End PyStr.

(** ** The fragment of Python's [re] the scripts use *)

Module Re.
Import PyStr.

(** Patterns.  A group carries its number; a repetition is greedy and
    bounded below by [lo] and above by [hi] ([None]: unbounded). *)
Inductive regex : Type :=
| Eps
| Lit (c : ascii)
| Cls (p : ascii -> bool)
| Dot
| Cat (r1 r2 : regex)
| Alt (r1 r2 : regex)
| Rep (lo : nat) (hi : option nat) (r : regex)
| Grp (n : nat) (r : regex)
| Bref (n : nat)
| Bol
| Eol
| Wb.

Record flags := { ignorecase : bool; multiline : bool }.

(** Matching state: the position reached and the spans of the groups
    closed so far, most recent first. *)
Record mstate := { pos : nat; spans : list (nat * (nat * nat)) }.

Definition cont := mstate -> option mstate.

Fixpoint span_of (n : nat) (l : list (nat * (nat * nat))) : option (nat * nat) :=
  match l with
  | [] => None
  | (m, sp) :: l' => if n =? m then Some sp else span_of n l'
  end.

Definition advance (n : nat) (st : mstate) : mstate :=
  {| pos := pos st + n; spans := spans st |}.

Definition close_group (n start : nat) (st : mstate) : mstate :=
  {| pos := pos st; spans := (n, (start, pos st)) :: spans st |}.

Definition char_eq (fl : flags) (a b : ascii) : bool :=
  if ignorecase fl then Ascii.eqb (to_lower a) (to_lower b) else Ascii.eqb a b.

Definition newline : ascii := ascii_of_nat 10.

Definition slice (t : list ascii) (i j : nat) : list ascii :=
  firstn (j - i) (skipn i t).

Fixpoint same_chars (fl : flags) (u v : list ascii) : bool :=
  match u, v with
  | [], _ => true
  | a :: u', b :: v' => char_eq fl a b && same_chars fl u' v'
  | _ :: _, [] => false
  end.

(** Greedy repetition of [body]: one more round is tried first, and the
    rest of the pattern only when that fails.  A round has to move
    forward, so [fuel] above the length of the text is never used up. *)
Fixpoint rep_loop (fuel : nat) (body : mstate -> cont -> option mstate)
    (lo : nat) (hi : option nat) (st : mstate) (k : cont) : option mstate :=
  let stop := match lo with O => k st | S _ => None end in
  match fuel with
  | O => stop
  | S fuel' =>
      match hi with
      | Some O => stop
      | _ =>
          match body st (fun st' =>
                   if pos st <? pos st'
                   then rep_loop fuel' body (Nat.pred lo) (option_map Nat.pred hi) st' k
                   else None) with
          | Some r => Some r
          | None => stop
          end
      end
  end.

Section Matcher.
Variable fl : flags.
Variable t : list ascii.

Definition at_bol (i : nat) : bool :=
  match i with
  | O => true
  | S j => multiline fl &&
           match nth_error t j with Some a => Ascii.eqb a newline | None => false end
  end.

(** [$]: the end of the text, or just before a newline that ends the
    text; with MULTILINE, before any newline. *)
Definition at_eol (i : nat) : bool :=
  match nth_error t i with
  | None => true
  | Some a => Ascii.eqb a newline && (multiline fl || (S i =? List.length t))
  end.

Definition word_at (i : nat) : bool :=
  match nth_error t i with Some a => is_word a | None => false end.

Definition at_wb (i : nat) : bool :=
  xorb (match i with O => false | S j => word_at j end) (word_at i).

(** Backtracking matcher in continuation-passing style: [exec r st k]
    matches [r] at [pos st] and hands every way of doing so, in
    Python's order of preference, to [k] until one succeeds. *)
Fixpoint exec (r : regex) (st : mstate) (k : cont) : option mstate :=
  match r with
  | Eps => k st
  | Lit c =>
      match nth_error t (pos st) with
      | Some a => if char_eq fl a c then k (advance 1 st) else None
      | None => None
      end
  | Cls p =>
      match nth_error t (pos st) with
      | Some a => if p a then k (advance 1 st) else None
      | None => None
      end
  | Dot =>
      match nth_error t (pos st) with
      | Some a => if Ascii.eqb a newline then None else k (advance 1 st)
      | None => None
      end
  | Cat r1 r2 => exec r1 st (fun st' => exec r2 st' k)
  | Alt r1 r2 =>
      match exec r1 st k with
      | Some m => Some m
      | None => exec r2 st k
      end
  | Rep lo hi r' => rep_loop (S (List.length t)) (exec r') lo hi st k
  | Grp n r' => exec r' st (fun st' => k (close_group n (pos st) st'))
  | Bref n =>
      match span_of n (spans st) with
      | Some (i, j) =>
          let g := slice t i j in
          if (pos st + List.length g <=? List.length t)
             && same_chars fl g (skipn (pos st) t)
          then k (advance (List.length g) st) else None
      | None => None
      end
  | Bol => if at_bol (pos st) then k st else None
  | Eol => if at_eol (pos st) then k st else None
  | Wb => if at_wb (pos st) then k st else None
  end.

Definition match_at (r : regex) (i : nat) : option mstate :=
  exec r {| pos := i; spans := [] |} Some.

End Matcher.

(** A continuation restricted to the positions of the text [t]. *)
Definition within (t : list ascii) (k : cont) : cont :=
  fun st => if pos st <=? List.length t then k st else None.

(** The match object: the text searched, the span of the whole match and
    the spans of the groups. *)
Record match_obj := {
  m_string : string;
  m_start : nat;
  m_end : nat;
  m_spans : list (nat * (nat * nat))
}.

Fixpoint first_some {A B : Type} (f : A -> option B) (l : list A) : option B :=
  match l with
  | [] => None
  | x :: l' => match f x with Some y => Some y | None => first_some f l' end
  end.

(** [re.search(pattern, text, flags)]: the leftmost position at which the
    pattern matches. *)
Definition search (fl : flags) (r : regex) (text : string) : option match_obj :=
  let t := list_ascii_of_string text in
  first_some
    (fun i =>
       match match_at fl t r i with
       | Some st => Some {| m_string := text; m_start := i; m_end := pos st;
                            m_spans := spans st |}
       | None => None
       end)
    (seq 0 (S (List.length t))).

(** [m.group(n)].  Every group a formatter of the scripts reads lies on
    each path through its pattern, so it is set whenever the pattern
    matched; an unset group reads as the empty string here. *)
Definition group (m : match_obj) (n : nat) : string :=
  match n with
  | O => String.substring (m_start m) (m_end m - m_start m) (m_string m)
  | _ =>
      match span_of n (m_spans m) with
      | Some (i, j) => String.substring i (j - i) (m_string m)
      | None => EmptyString
      end
  end.

(** Pattern syntax. *)
Fixpoint lit (s : string) : regex :=
  match s with
  | EmptyString => Eps
  | String a EmptyString => Lit a
  | String a s' => Cat (Lit a) (lit s')
  end.

Fixpoint cat (l : list regex) : regex :=
  match l with
  | [] => Eps
  | [r] => r
  | r :: l' => Cat r (cat l')
  end.

Fixpoint alt (l : list regex) : regex :=
  match l with
  | [] => Eps
  | [r] => r
  | r :: l' => Alt r (alt l')
  end.

Definition star (r : regex) : regex := Rep 0 None r.
Definition plus (r : regex) : regex := Rep 1 None r.
Definition opt (r : regex) : regex := Rep 0 (Some 1) r.
Definition range (lo hi : nat) (r : regex) : regex := Rep lo (Some hi) r.

Definition d : regex := Cls is_digit.   (* \d *)
Definition s : regex := Cls is_space.   (* \s *)
Definition w : regex := Cls is_word.    (* \w *)
Definition one_of (cs : string) : regex :=
  Cls (fun a => existsb (Ascii.eqb a) (list_ascii_of_string cs)).
Definition none_of (cs : string) : regex :=
  Cls (fun a => negb (existsb (Ascii.eqb a) (list_ascii_of_string cs))).

End Re.

(** ** Computations that log what they do

    The scripts call out to [re.search], to the scoring oracles, to the
    console and to the network.  A computation returns its value together
    with the events it caused, in the order in which they happened. *)

Definition W (E A : Type) : Type := (list E * A)%type.

#[global] Instance W_ret {E} : MRet (W E) := fun A x => ([], x).
#[global] Instance W_bind {E} : MBind (W E) := fun A B f c =>
  let '(l1, x) := c in let '(l2, y) := f x in (app l1 l2, y).

Definition emit {E} (e : E) : W E unit := ([e], tt).
Definition log {E A} (c : W E A) : list E := fst c.
Definition value {E A} (c : W E A) : A := snd c.

(** ** The rule table and the extractor of [iter1.py] and [final ig.py] *)

Module TierA.
Import PyStr Re.

(** A field rule: a pattern and the formatter applied to its match. *)
Record rule := { pattern : regex; formatter : match_obj -> string }.

(** Every search of the two scripts passes [re.IGNORECASE | re.MULTILINE]. *)
Definition IM : flags := {| ignorecase := true; multiline := true |}.

(** [KEY\s*[:-]?\s*] *)
Definition keyed (key : string) : regex :=
  cat [lit key; star s; opt (one_of ":-"); star s].

(** [(\d+(?:\.\d+)?)] as group 1 *)
Definition number : regex :=
  Grp 1 (cat [plus d; opt (cat [Lit "."; plus d])]).

(** [(\d+\.\d+)] as group [n] *)
Definition decimal (n : nat) : regex := Grp n (cat [plus d; Lit "."; plus d]).

(** [(\d+)-\1-\1] *)
Definition thrice : regex :=
  cat [Grp 1 (plus d); Lit "-"; Bref 1; Lit "-"; Bref 1].

Definition const (v : string) : match_obj -> string := fun _ => v.

(** The table is the same in both scripts; a dict keeps the order in
    which its keys were written. *)
Definition FIELD_RULES : list (string * list rule) := [
  ("Full Form", [
    {| pattern := lit "ORDINARY PORTLAND CEMENT";
       formatter := const "ORDINARY PORTLAND CEMENT (full form)" |};
    {| pattern := cat [Wb; lit "OPC"; Wb];
       formatter := const "OPC (abbreviated)" |};
    {| pattern := lit "TMT";
       formatter := const ("Abbreviated: " ++ dq ++ "TMT" ++ dq) |};
    {| pattern := lit "HT STEEL STRAND";
       formatter := const ("Full form: " ++ dq ++ "HT STEEL STRAND" ++ dq) |};
    {| pattern := lit "LRPCF";
       formatter := const ("Abbreviated: " ++ dq ++ "LRPCF" ++ dq) |};
    {| pattern := lit "RIB BAR";
       formatter := const "Abbreviated: RIB BAR + CRS" |} ]);
  ("Grade", [
    {| pattern := cat [keyed "GRADE"; Grp 1 (plus w)];
       formatter := fun m => "GRADE :- " ++ group m 1 |};
    {| pattern := cat [lit "GRADE:-"; Grp 1 (plus w)];
       formatter := fun m => "GRADE:- " ++ group m 1 |};
    {| pattern := Grp 1 (alt [cat [lit "FE"; opt (Lit "_"); lit "500D"];
                              lit "FE550D"; lit "1860"; lit "53"]);
       formatter := fun m => "Inline: " ++ dq ++ group m 1 ++ dq |};
    {| pattern := cat [Wb; lit "53"; Wb];
       formatter := fun m => if contains "LOOSE" (m_string m)
                             then "53 (inline)" else "53 (implied)" |} ]);
  ("Form", [
    {| pattern := cat [keyed "FORM"; Grp 1 (plus (none_of ";"))];
       formatter := fun m => "FORM :- " ++ strip (group m 1) |};
    {| pattern := cat [lit "FORM:-"; Grp 1 (plus (none_of ";"))];
       formatter := fun m => "FORM:- " ++ strip (group m 1) |};
    {| pattern := lit "LOOSELOOSE";
       formatter := const (dq ++ "LOOSELOOSE" ++ dq ++ " (redundant)") |};
    {| pattern := lit "LOOSE"; formatter := const "LOOSE" |};
    {| pattern := lit "BULK"; formatter := const "FORM :- Bulk" |} ]);
  ("Type", [
    {| pattern := cat [keyed "TYPE"; Grp 1 (plus (none_of ";"))];
       formatter := fun m => "TYPE :- " ++ strip (group m 1) |};
    {| pattern := cat [lit "TYPE:-"; Grp 1 (plus (none_of ";"))];
       formatter := fun m => "TYPE:- " ++ strip (group m 1) |};
    {| pattern := cat [keyed "TYPE OF STRAND"; Grp 1 (plus (none_of ";"))];
       formatter := fun m => "TYPE OF STRAND :- " ++ strip (group m 1) |};
    {| pattern := lit "Corrosion resistant steel";
       formatter := const "TYPE:- Corrosion resistant steel (CRS)" |};
    {| pattern := lit "Thermo mechanically treated";
       formatter := const "TYPE :- Thermo mechanically treated (TMT)" |};
    {| pattern := cat [lit "TMT"; star Dot; lit "CRS"];
       formatter := const "TMT + CRS" |};
    {| pattern := cat [lit "RIB BAR"; star Dot; lit "CRS"];
       formatter := const "RIB BAR + CRS" |} ]);
  ("Diameter", [
    {| pattern := cat [keyed "NOMINAL DIAMETER OF STRAND"; number; star s; lit "MM"];
       formatter := fun m => "NOMINAL DIAMETER :- " ++ group m 1 ++ " mm" |};
    {| pattern := cat [keyed "DIAMETER"; number; star s; lit "MM"];
       formatter := fun m => "DIAMETER :- " ++ group m 1 ++ " mm" |};
    {| pattern := cat [number; star s; lit "MM"];
       formatter := fun m => "Inline: " ++ dq ++ group m 1 ++ " mm" ++ dq |} ]);
  ("Length", [
    {| pattern := cat [lit "Length:"; star s; decimal 1; star s; lit "M"];
       formatter := fun m => "clearly " ++ dq ++ group m 1 ++ " m" ++ dq |};
    {| pattern := cat [thrice; star Dot; lit "Length:"; star s; decimal 2;
                       star s; lit "M"];
       formatter := fun m => "Repeated as " ++ dq ++ group m 1 ++ dq
                             ++ ", clearly " ++ dq ++ group m 2 ++ " m" ++ dq |};
    {| pattern := thrice;
       formatter := fun m => "Repeated as " ++ dq ++ group m 1 ++ dq
                             ++ ", clearly " ++ dq ++ group m 1 ++ ".000 m" ++ dq |};
    {| pattern := cat [lit "FORM"; star Dot; lit "Standard length"];
       formatter := const "FORM:- Straight bars (standard length)" |};
    {| pattern := cat [lit "FORM"; star Dot; lit "Specific length"];
       formatter := const "FORM :- Straight bars (specific length)" |} ]);
  ("Standard", [
    {| pattern := cat [keyed "STANDARD"; Grp 1 (plus (none_of ";"))];
       formatter := fun m => if contains "STANDARD :-" (m_string m)
                             then "STANDARD :- " ++ strip (group m 1)
                             else "STANDARD:- " ++ strip (group m 1) |};
    {| pattern := lit "IS 1786"; formatter := const "STANDARD :- IS 1786" |};
    {| pattern := cat [lit "BIS "; plus d; Lit "_"; plus d];
       formatter := fun m => "Mentioned: BIS " ++ group m 0 |} ]);
  ("Structure", [
    {| pattern := cat [Lit ";"; star Dot; lit ":-"];
       formatter := const "Fully structured" |};
    {| pattern := cat [Bol; lit "OPC"; plus d; Eol];
       formatter := const "Very short" |};
    {| pattern := cat [Bol; lit "OPC"; plus d; plus s; lit "LOOSE"; Eol];
       formatter := const "Short & inline" |};
    {| pattern := Lit "-"; formatter := const "Coded inline" |};
    {| pattern := Lit "/"; formatter := const "Mixed inline + natural language" |};
    {| pattern := star Dot; formatter := const "Unstructured free text" |} ]);
  ("Extra Info", [
    {| pattern := lit "6C11M0007000000";
       formatter := const "Ends with code: 6C11M0007000000" |};
    {| pattern := lit "Oiled.";
       formatter := const (dq ++ "Oiled." ++ dq ++ " suffix") |};
    {| pattern := lit "JVBTLCD201 P1";
       formatter := const "Codes: JVBTLCD201, P1" |};
    {| pattern := Lit ";"; formatter := const "Not present" |} ])
].

(** What the scripts do that can be observed: a call of [re.search] on
    the pattern of rule [index] of [field], a printed line, and a table
    handed to the printer with its rows. *)
Inductive event : Type :=
| EvSearch (field : string) (index : nat)
| EvPrint (line : string)
| EvTable (rows : list (string * string * string)).

Section Extract.
Variable text : string.

(** The inner loop: the rules of one field from rule [i] on.  A match
    stores the formatted value and breaks. *)
Fixpoint apply_rules (field : string) (rules : list rule) (i : nat)
    (result : gmap string string) : W event (gmap string string) :=
  match rules with
  | [] => mret result
  | r :: rules' =>
      emit (EvSearch field i) ;;
      match search IM (pattern r) text with
      | Some m => mret (<[field := formatter r m]> result)
      | None => apply_rules field rules' (S i) result
      end
  end.

(** The outer loop over the items of the table. *)
Fixpoint extract_fields (table : list (string * list rule))
    (result : gmap string string) : W event (gmap string string) :=
  match table with
  | [] => mret result
  | (field, rules) :: table' =>
      result' ← apply_rules field rules 0 result;
      extract_fields table' result'
  end.
End Extract.

Definition extract_details_in (table : list (string * list rule)) (text : string)
  : W event (gmap string string) :=
  extract_fields text table ∅.

Definition extract_details (text : string) : W event (gmap string string) :=
  extract_details_in FIELD_RULES text.

(** *** The report builder *)

Definition NOT_MENTIONED : string := "Not mentioned".

Definition row : Type := (string * string * string)%type.

(** The loop both scripts run over the aspects to display:
    [d.get(aspect, "Not mentioned")] on either record, no row when both
    are the sentinel, otherwise [table.add_row]. *)
Fixpoint add_rows (aspects : list string) (d1 d2 : gmap string string)
    (table : list row) : list row :=
  match aspects with
  | [] => table
  | aspect :: aspects' =>
      let v1 := default NOT_MENTIONED (d1 !! aspect) in
      let v2 := default NOT_MENTIONED (d2 !! aspect) in
      if String.eqb v1 NOT_MENTIONED && String.eqb v2 NOT_MENTIONED
      then add_rows aspects' d1 d2 table
      else add_rows aspects' d1 d2 (app table [(aspect, v1, v2)])
  end.

Definition string_of_bytes (l : list nat) : string :=
  string_of_list_ascii (List.map ascii_of_nat l).

Definition nl : string := string_of_bytes [10].

(** [str(n)] of an integer *)
Definition str_of_int (n : Z) : string := NilEmpty.string_of_int (Z.to_int n).

(** [iter1.py] *)
Module Iter1.

Definition GENERIC_ASPECT_ORDER : list string :=
  ["Type"; "Full Form"; "Grade"; "Diameter"; "Length";
   "Form"; "Standard"; "Structure"; "Extra Info"].

(** The check mark the header lines start with, in UTF-8. *)
Definition check_mark : string := string_of_bytes [226; 156; 133].

(** [pair_num] and [aspect_order] default to [None]; an integer is
    true when it is not zero. *)
Definition compare_strings (s1 s2 : string) (pair_num : option Z)
    (aspect_order : option (list string)) : W event unit :=
  d1 ← extract_details s1;
  d2 ← extract_details s2;
  let aspects_to_display := default GENERIC_ASPECT_ORDER aspect_order in
  match pair_num with
  | Some n =>
      if (n =? 0)%Z then emit (EvPrint (check_mark ++ " User Input Comparison"))
      else emit (EvPrint (check_mark ++ " Pair " ++ str_of_int n))
  | None => emit (EvPrint (check_mark ++ " User Input Comparison"))
  end;;
  emit (EvPrint ("String 1: " ++ s1));;
  emit (EvPrint ("String 2: " ++ s2 ++ nl));;
  emit (EvTable (add_rows aspects_to_display d1 d2 []));;
  emit (EvPrint (nl ++ "---" ++ nl)).

End Iter1.

(** [product-comparator/final ig.py] *)
Module FinalIg.

Definition ASPECT_ORDER : gmap Z (list string) :=
  list_to_map [
    (1%Z, ["Full Form"; "Grade"; "Form"; "Structure"; "Extra Info"]);
    (2%Z, ["Full Form"; "Grade"; "Diameter"; "Extra Info"; "Standard"; "Type";
           "Structure"]);
    (3%Z, ["Type"; "Grade"; "Diameter"; "Length"; "Extra Info"; "Standard";
           "Structure"]);
    (4%Z, ["Brand"; "Type"; "Grade"; "Diameter"; "Standard"; "Structure"]);
    (5%Z, ["Type"; "Grade"; "Diameter"; "Length"; "Standard"; "Structure"]);
    (6%Z, ["Type"; "Grade"; "Diameter"; "Length"; "Standard"; "Structure"]);
    (7%Z, ["Full Form"; "Grade"; "Form"; "Structure"]);
    (8%Z, ["Full Form"; "Grade"; "Form"; "Structure"])
  ].

(** The header as the file spells it: the check mark decoded in a
    one-byte code page and written back in UTF-8. *)
Definition header_mark : string :=
  string_of_bytes [195; 162; 197; 147; 226; 128; 166].

Definition compare_strings (s1 s2 : string) (pair_num : Z) : W event unit :=
  d1 ← extract_details s1;
  d2 ← extract_details s2;
  let aspects := default [] (ASPECT_ORDER !! pair_num) in
  emit (EvPrint (header_mark ++ " Pair " ++ str_of_int pair_num));;
  emit (EvPrint ("String 1: " ++ s1));;
  emit (EvPrint ("String 2: " ++ s2 ++ nl));;
  emit (EvTable (add_rows aspects d1 d2 []));;
  emit (EvPrint (nl ++ "---" ++ nl)).

End FinalIg.

End TierA.

(** ** [float(s)] and the [.2f] format *)

Module PyFloat.
Local Open Scope Z_scope.

(** A non-negative double: [Finite m e] is [m * 2^e]; [Inf] is what a
    number beyond the range rounds to. *)
Inductive pyfloat : Type :=
| Finite (m e : Z)
| Inf.

(** [a / b] rounded to the nearest integer, a tie to the even one. *)
Definition rne_div (a b : Z) : Z :=
  let q := a / b in
  let r := a mod b in
  if 2 * r <? b then q
  else if b <? 2 * r then q + 1
  else if Z.even q then q else q + 1.

(** [n / d * 2^(-e)] as a fraction *)
Definition scaled (n d e : Z) : Z * Z :=
  if 0 <=? e then (n, d * 2 ^ e) else (n * 2 ^ (- e), d).

(** The double nearest to [n / d], for [0 <= n] and [0 < d]: 53 bits of
    mantissa, the exponent no lower than -1074. *)
Definition round_to_double (n d : Z) : pyfloat :=
  if n =? 0 then Finite 0 0
  else
    let e0 := Z.log2 n - Z.log2 d - 52 in
    let '(n0, d0) := scaled n d e0 in
    let e1 := if d0 * 2 ^ 52 <=? n0 then e0 else e0 - 1 in
    let e := Z.max e1 (-1074) in
    let '(n1, d1) := scaled n d e in
    let m := rne_div n1 d1 in
    if (971 <? e) || ((e =? 971) && (2 ^ 53 <=? m)) then Inf else Finite m e.

Definition digit_value (a : ascii) : Z := Z.of_nat (nat_of_ascii a) - 48.

Fixpoint digits_value (s : string) (acc : Z) : Z :=
  match s with
  | EmptyString => acc
  | String a s' => digits_value s' (10 * acc + digit_value a)
  end.

(** The digits before and after the first dot. *)
Fixpoint split_dot (s : string) : string * string :=
  match s with
  | EmptyString => (EmptyString, EmptyString)
  | String a s' =>
      if Ascii.eqb a "." then (EmptyString, s')
      else let '(ip, fp) := split_dot s' in (String a ip, fp)
  end.

(** [float(s)] for [s] made of digits with at most one dot, which is
    what the extractors capture. *)
Definition float_of_string (s : string) : pyfloat :=
  let '(ip, fp) := split_dot s in
  round_to_double (digits_value (ip ++ fp)%string 0)
                  (10 ^ Z.of_nat (String.length fp)).

Definition str_of_nat_Z (n : Z) : string := NilEmpty.string_of_int (Z.to_int n).

(** [f"{x:.2f}"]: the decimal with two places nearest to the double. *)
Definition format_2f (x : pyfloat) : string :=
  match x with
  | Inf => "inf"
  | Finite m e =>
      let '(n, d) := scaled (100 * m) 1 (- e) in
      let q := rne_div n d in
      let frac := q mod 100 in
      let pad := if frac <? 10 then "0"%string else EmptyString in
      (str_of_nat_Z (q / 100) ++ "." ++ pad ++ str_of_nat_Z frac)%string
  end.

End PyFloat.

(** ** JSON values and the Python operations applied to them *)

Module Py.
Import PyStr.

(** An exception: its class and what [str(e)] gives. *)
Inductive exn : Type := Exn (cls msg : string).

Definition str_exn (e : exn) : string := let 'Exn _ msg := e in msg.

(** A step that raises ends the steps that follow it. *)
#[global] Instance exn_ret : MRet (sum exn) := fun A x => inr x.
#[global] Instance exn_bind : MBind (sum exn) := fun A B f c =>
  match c with
  | inl e => inl e
  | inr x => f x
  end.

(** What [json.loads] can return.  An object is kept as the list of its
    members, a key at most once. *)
Inductive json : Type :=
| JNull
| JBool (b : bool)
| JInt (n : Z)
| JFloat (x : float)
| JStr (s : string)
| JArr (items : list json)
| JObj (members : list (string * json)).

Definition type_name (v : json) : string :=
  match v with
  | JNull => "NoneType" | JBool _ => "bool" | JInt _ => "int"
  | JFloat _ => "float" | JStr _ => "str" | JArr _ => "list" | JObj _ => "dict"
  end.

Fixpoint member (key : string) (l : list (string * json)) : option json :=
  match l with
  | [] => None
  | (k, v) :: l' => if String.eqb key k then Some v else member key l'
  end.

Definition is_str (key : string) (v : json) : bool :=
  match v with JStr s => String.eqb s key | _ => false end.

Definition quote (s : string) : string := "'" ++ s ++ "'".

(** [key in v] for a string [key]: a key of a dict, an element of a
    list, a substring of a string; anything else is not iterable. *)
Definition py_in (key : string) (v : json) : exn + bool :=
  match v with
  | JObj l => inr (bool_decide (is_Some (member key l)))
  | JArr l => inr (existsb (is_str key) l)
  | JStr s => inr (contains key s)
  | _ => inl (Exn "TypeError"
                ("argument of type " ++ quote (type_name v) ++ " is not iterable"))
  end.

(** [v[key]] for a string [key] *)
Definition getitem_str (key : string) (v : json) : exn + json :=
  match v with
  | JObj l =>
      match member key l with
      | Some x => inr x
      | None => inl (Exn "KeyError" (quote key))
      end
  | JArr _ => inl (Exn "TypeError" "list indices must be integers or slices, not str")
  | JStr _ => inl (Exn "TypeError" "string indices must be integers, not 'str'")
  | _ => inl (Exn "TypeError" (quote (type_name v) ++ " object is not subscriptable"))
  end.

(** [v[0]]; the keys of a JSON object are strings, so 0 is none of them. *)
Definition getitem_0 (v : json) : exn + json :=
  match v with
  | JArr (x :: _) => inr x
  | JArr [] => inl (Exn "IndexError" "list index out of range")
  | JStr (String a _) => inr (JStr (String a EmptyString))
  | JStr EmptyString => inl (Exn "IndexError" "string index out of range")
  | JObj _ => inl (Exn "KeyError" "0")
  | _ => inl (Exn "TypeError" (quote (type_name v) ++ " object is not subscriptable"))
  end.

End Py.

(** ** [product-comparator/main.py] *)

Module Main.
Import PyStr Re PyFloat Py.

(** *** Step 1: preprocessing *)

Definition preprocess (text : string) : string :=
  let text := strip (lower text) in
  let text := replace "_" " " text in
  let text := replace ":-" ":" text in
  let text := replace ";" "; " text in
  text.

(** *** Step 2: field extractors *)

(** The searches of this script pass no flag. *)
Definition NOFLAGS : flags := {| ignorecase := false; multiline := false |}.

Definition extract_grade (text : string) : option string :=
  let pat :=
    Grp 1 (alt [cat [lit "fe"; opt (Cls (fun a => is_space a || Ascii.eqb a "_"));
                     lit "500"; opt (Lit "d")];
                cat [Wb; lit "43"; Wb];
                cat [Wb; lit "53"; Wb]]) in
  match search NOFLAGS pat text with
  | Some m => Some (replace " " EmptyString (upper (group m 1)))
  | None => None
  end.

Definition extract_diameter (text : string) : option string :=
  let pat := cat [Grp 1 (cat [range 1 3 d; opt (Lit "."); star d]); opt s; lit "mm"] in
  match search NOFLAGS pat text with
  | Some m => Some (format_2f (float_of_string (group m 1)) ++ " mm")
  | None => None
  end.

Definition extract_material (text : string) : option string :=
  if contains "opc" text then Some "OPC"
  else if contains "tmt" text then Some "TMT"
  else if contains "strand" text || contains "lrpc" text then Some "PC Strand"
  else None.

Definition extract_form (text : string) : option string :=
  if contains "bulk" text || contains "loose" text then Some "Loose"
  else if contains "straight" text then Some "Straight bars"
  else if contains "bag" text then Some "Bag"
  else None.

Definition extract_length (text : string) : option string :=
  let pat := cat [Grp 1 (cat [range 4 5 d; opt (Lit "."); star d]); opt s; lit "mm"] in
  match search NOFLAGS pat text with
  | Some m => Some (format_2f (float_of_string (group m 1)) ++ " mm")
  | None => None
  end.

Definition extract_standard (text : string) : option string :=
  let pat := cat [lit "is"; opt s; range 4 4 d] in
  match search NOFLAGS pat text with
  | Some m => Some (upper (group m 0))
  | None => None
  end.

(** *** The values the comparator handles: [None] or a string *)

(** Python's truth value: [None] and the empty string are false. *)
Definition truthy (v : option string) : bool :=
  match v with
  | Some (String _ _) => true
  | _ => false
  end.

Definition text_of (v : option string) : string := default EmptyString v.

Inductive match_status : Type :=
| NotMentioned     (* white circle,  "Not Mentioned" *)
| ExactMatch       (* check mark,    "Exact Match" *)
| FuzzyMatch       (* check mark,    "Fuzzy Match" *)
| SemanticMatch    (* check mark,    "Semantic Match" *)
| Mismatch.        (* cross mark,    "Mismatch" *)

Definition row : Type := (string * string * string * match_status)%type.

Record request := {
  url : string;
  authorization : string;
  model_name : string;
  content : string;
  temperature : float
}.

(** What [requests.post] hands back: [response.json()] either raises or
    gives the decoded body. *)
Record response := { json_of : exn + json }.

Inductive event : Type :=
| EvRatio (a b : string)                  (* fuzz.ratio(a, b) *)
| EvEncode (v : string)                   (* model.encode(v) *)
| EvCosSim                                (* util.cos_sim(emb1, emb2) *)
| EvPrint (line : string)
| EvTable (rows : list row)
| EvPrintData (label : string) (data : json)
| EvPrintValue (v : json)
| EvPost (req : request).                 (* requests.post(...) *)

Definition is_semantic_call (e : event) : bool :=
  match e with EvEncode _ | EvCosSim => true | _ => false end.

Definition is_post (e : event) : bool :=
  match e with EvPost _ => true | _ => false end.

Definition GROQ_API_KEY : string :=
  "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".

Definition nl : string := TierA.nl.
Definition cross_mark : string := TierA.string_of_bytes [226; 157; 140].
Definition warning_sign : string := TierA.string_of_bytes [226; 154; 160; 239; 184; 143].
Definition robot_face : string := TierA.string_of_bytes [240; 159; 164; 150].
Definition magnifier : string := TierA.string_of_bytes [240; 159; 148; 141].

Section Oracles.
(** The collaborators of the script: the fuzzy ratio of rapidfuzz, the
    sentence embedding with its cosine similarity, and the completion
    endpoint. *)
Variable fuzz_ratio : string -> string -> float.
Context {tensor : Type}.
Variable encode : string -> tensor.
Variable cos_sim : tensor -> tensor -> float.
Variable post : request -> exn + response.

(** *** Step 3: semantic match *)

Definition semantic_match (val1 val2 : option string) : W event bool :=
  if negb (truthy val1) || negb (truthy val2) then mret false
  else
    emit (EvEncode (text_of val1));;
    let emb1 := encode (text_of val1) in
    emit (EvEncode (text_of val2));;
    let emb2 := encode (text_of val2) in
    emit EvCosSim;;
    let similarity := cos_sim emb1 emb2 in
    mret (PrimFloat.ltb 0.85%float similarity).

(** *** Step 4: field comparator *)

(** [val1 and val2 and fuzz.ratio(val1, val2) > 85]: the ratio is
    asked for only when both values are true. *)
Definition fuzzy_match (val1 val2 : option string) : W event bool :=
  if truthy val1 && truthy val2
  then emit (EvRatio (text_of val1) (text_of val2));;
       mret (PrimFloat.ltb 85%float (fuzz_ratio (text_of val1) (text_of val2)))
  else mret false.

Definition compare_field (val1 val2 : option string)
  : W event (match_status * option string * option string) :=
  if negb (truthy val1) && negb (truthy val2) then mret (NotMentioned, val1, val2)
  else if bool_decide (val1 = val2) then mret (ExactMatch, val1, val2)
  else
    fuzzy ← fuzzy_match val1 val2;
    if fuzzy : bool then mret (FuzzyMatch, val1, val2)
    else
      semantic ← semantic_match val1 val2;
      if semantic : bool then mret (SemanticMatch, val1, val2)
      else mret (Mismatch, val1, val2).

(** *** Step 5: report formatter *)

Definition print_report (string1 string2 : string) (results : list row)
  : W event unit :=
  emit (EvPrint (nl ++ "String 1:"));;
  emit (EvPrint string1);;
  emit (EvPrint (nl ++ "String 2:"));;
  emit (EvPrint string2);;
  emit (EvPrint (nl ++ magnifier ++ " Comparison Report:" ++ nl));;
  emit (EvTable results).

(** *** Step 6: the fallback call *)

Definition prompt (string1 string2 : string) : string :=
  nl ++ "Compare the following two product descriptions and extract these fields:"
  ++ nl ++ "- Grade" ++ nl ++ "- Diameter" ++ nl ++ "- Material" ++ nl
  ++ "- Form" ++ nl ++ "- Length" ++ nl ++ "- Standard" ++ nl ++ nl
  ++ "Return a JSON object for each string with field-value pairs." ++ nl ++ nl
  ++ "String 1: " ++ string1 ++ nl ++ "String 2: " ++ string2 ++ nl.

(** The request of [requests.post]: the address, the authorisation
    header and the JSON payload. *)
Definition groq_request (string1 string2 : string) : request :=
  {| url := "https://api.groq.com/openai/v1/chat/completions";
     authorization := "Bearer " ++ GROQ_API_KEY;
     model_name := "llama3-70b-8192";
     content := prompt string1 string2;
     temperature := 0.2%float |}.

(** The body of the [try]: the value returned, or the exception that
    leaves it. *)
Definition call_llm_groq_try (string1 string2 : string) : W event (exn + json) :=
  let req := groq_request string1 string2 in
  emit (EvPost req);;
  match post req with
  | inl e => mret (inl e)
  | inr resp =>
      match json_of resp with
      | inl e => mret (inl e)
      | inr data =>
          match py_in "choices" data with
          | inl e => mret (inl e)
          | inr false =>
              emit (EvPrintData (cross_mark ++ " LLM Response Error:") data);;
              mret (inr (JStr "LLM call failed: Unexpected response structure"))
          | inr true =>
              mret (choices ← getitem_str "choices" data;
                    choice ← getitem_0 choices;
                    message ← getitem_str "message" choice;
                    getitem_str "content" message)
          end
      end
  end.

(** [except Exception as e: return f"LLM call failed: {str(e)}"] *)
Definition call_llm_groq (string1 string2 : string) : W event json :=
  r ← call_llm_groq_try string1 string2;
  match r with
  | inr v => mret v
  | inl e => mret (JStr ("LLM call failed: " ++ str_exn e))
  end.

(** *** Step 7: are fields missing? *)

Fixpoint fields_missing (results : list row) : bool :=
  match results with
  | [] => false
  | (aspect, val1, val2, _) :: results' =>
      if String.eqb val1 "-" || String.eqb val2 "-" then true
      else fields_missing results'
  end.

(** *** Step 8: core comparison *)

Definition aspects : list (string * (string -> option string)) := [
  ("Grade", extract_grade);
  ("Diameter", extract_diameter);
  ("Material", extract_material);
  ("Form", extract_form);
  ("Length", extract_length);
  ("Standard", extract_standard)
].

(** [v or "-"] *)
Definition or_dash (v : option string) : string :=
  if truthy v then text_of v else "-".

Fixpoint compare_aspects (l : list (string * (string -> option string)))
    (s1 s2 : string) (results : list row) : W event (list row) :=
  match l with
  | [] => mret results
  | (aspect, func) :: l' =>
      let val1 := func s1 in
      let val2 := func s2 in
      '(status, v1, v2) ← compare_field val1 val2;
      compare_aspects l' s1 s2 (app results [(aspect, or_dash v1, or_dash v2, status)])
  end.

Definition compare_strings (string1 string2 : string) : W event unit :=
  let s1 := preprocess string1 in
  let s2 := preprocess string2 in
  results ← compare_aspects aspects s1 s2 [];
  print_report string1 string2 results;;
  if fields_missing results then
    emit (EvPrint (nl ++ warning_sign
                   ++ " Falling back to Groq LLM for smart extraction..." ++ nl));;
    llm_output ← call_llm_groq string1 string2;
    emit (EvPrint (nl ++ robot_face ++ " LLM Fallback Output:"));;
    emit (EvPrintValue llm_output)
  else mret tt.

End Oracles.

End Main.

(** ** The session of [iter1.py] *)

Module Iter1Main.
Import PyStr TierA.

(** What a session puts on the console: the events of a comparison, and
    the prompt of an [input]. *)
Inductive console : Type :=
| Out (e : event)
| Ask (prompt : string).

(** How [main] ends: past its last line, or with the [EOFError] of an
    [input] that finds no line to read, which nothing catches. *)
Inductive ending : Type :=
| Finished
| EOFError.

Definition lift {A : Type} (c : W event A) : W console A :=
  (List.map Out (log c), value c).

Definition print (line : string) : W console unit := emit (Out (EvPrint line)).

(** [s.lower() == 'exit'] *)
Definition is_exit (s : string) : bool := String.eqb (lower s) "exit".

(** The [while True] loop on the lines still to be read from the standard
    input; a [break] returns [Finished]. *)
Fixpoint loop (stdin : list string) (comparison_count : Z) : W console ending :=
  print (nl ++ "--- Comparison " ++ str_of_int comparison_count ++ " ---");;
  emit (Ask "Enter String 1: ");;
  match stdin with
  | [] => mret EOFError
  | line1 :: stdin1 =>
      let s1 := strip line1 in
      if is_exit s1 then mret Finished
      else
        emit (Ask "Enter String 2: ");;
        match stdin1 with
        | [] => mret EOFError
        | line2 :: stdin2 =>
            let s2 := strip line2 in
            if is_exit s2 then mret Finished
            else
              lift (Iter1.compare_strings s1 s2 (Some comparison_count)
                      (Some Iter1.GENERIC_ASPECT_ORDER));;
              loop stdin2 (comparison_count + 1)
        end
  end.

Definition main (stdin : list string) : W console ending :=
  print "Welcome to the String Comparison Tool!";;
  print "Enter 'exit' at any prompt to quit.";;
  r ← loop stdin 1;
  match r with
  | Finished => print "Thank you for using the tool. Goodbye!";; mret Finished
  | EOFError => mret EOFError
  end.

End Iter1Main.

(** * Vocabulary of the statements *)

Module MainSpec.
Import Main.

(** A value is absent when Python takes it for false. *)
Definition absent (v : option string) : Prop := truthy v = false.
Definition present (v : option string) : Prop := truthy v = true.

Section Scores.
Variable fuzz_ratio : string -> string -> float.
Context {tensor : Type}.
Variable encode : string -> tensor.
Variable cos_sim : tensor -> tensor -> float.

(** The score of the fuzzy oracle exceeds 85. *)
Definition fuzzy_above (val1 val2 : option string) : Prop :=
  PrimFloat.ltb 85%float (fuzz_ratio (text_of val1) (text_of val2)) = true.

(** The score of the semantic oracle exceeds 0.85. *)
Definition semantic_above (val1 val2 : option string) : Prop :=
  PrimFloat.ltb 0.85%float
    (cos_sim (encode (text_of val1)) (encode (text_of val2))) = true.

(** The five tiers in their order of priority: each one assumes that
    the tiers before it did not apply. *)
Inductive classified (val1 val2 : option string) : match_status -> Prop :=
| tier_not_mentioned :
    absent val1 -> absent val2 ->
    classified val1 val2 NotMentioned
| tier_exact :
    ~ (absent val1 /\ absent val2) -> val1 = val2 ->
    classified val1 val2 ExactMatch
| tier_fuzzy :
    val1 <> val2 -> present val1 -> present val2 -> fuzzy_above val1 val2 ->
    classified val1 val2 FuzzyMatch
| tier_semantic :
    val1 <> val2 -> present val1 -> present val2 -> ~ fuzzy_above val1 val2 ->
    semantic_above val1 val2 ->
    classified val1 val2 SemanticMatch
| tier_mismatch_one_side :
    (present val1 /\ absent val2) \/ (absent val1 /\ present val2) ->
    classified val1 val2 Mismatch
| tier_mismatch_dissimilar :
    val1 <> val2 -> present val1 -> present val2 -> ~ fuzzy_above val1 val2 ->
    ~ semantic_above val1 val2 ->
    classified val1 val2 Mismatch.
End Scores.

Definition status_of (r : match_status * option string * option string)
  : match_status := fst (fst r).

(** The calls of the embedding model and of the cosine similarity in a
    log, in their order. *)
Definition semantic_calls (l : list event) : list event :=
  List.filter is_semantic_call l.

(** The requests sent to the completion endpoint. *)
Definition posts (l : list event) : list event := List.filter is_post l.

(** A comparison row with the absence sentinel on either side. *)
Definition has_sentinel (r : row) : Prop :=
  let '(_, val1, val2, _) := r in val1 = "-" \/ val2 = "-".

(** The completion a well-shaped body carries: an object whose
    ["choices"] is a list, the first choice an object whose ["message"]
    is an object with a ["content"]. *)
Definition completion (data : Py.json) : option Py.json :=
  match data with
  | Py.JObj l =>
      match Py.member "choices" l with
      | Some (Py.JArr (Py.JObj c :: _)) =>
          match Py.member "message" c with
          | Some (Py.JObj m) => Py.member "content" m
          | _ => None
          end
      | _ => None
      end
  | _ => None
  end.

(** A string that begins with the words of a failed call. *)
Definition failure_string (v : Py.json) : Prop :=
  exists reason, v = Py.JStr ("LLM call failed: " ++ reason).

End MainSpec.

Module TierASpec.
Import Re TierA.

(** The pattern of a rule matches somewhere in the text. *)
Definition rule_matches (text : string) (r : rule) : Prop :=
  is_Some (search IM (pattern r) text).

#[global] Instance rule_matches_dec text r : Decision (rule_matches text r).
Proof. unfold rule_matches. apply _. Defined.

(** The first rule, in the order of the list, whose pattern matches:
    its index and the rule. *)
Definition first_matching (text : string) (rules : list rule) : option (nat * rule) :=
  list_find (rule_matches text) rules.

(** The rules the table gives for a field. *)
Definition rules_of (field : string) : list rule :=
  match List.find (fun p => String.eqb (fst p) field) FIELD_RULES with
  | Some (_, rules) => rules
  | None => []
  end.

(** The rules of [field] whose patterns a log shows as searched, by
    index and in the order of the searches. *)
Fixpoint searched (field : string) (l : list event) : list nat :=
  match l with
  | [] => []
  | EvSearch f i :: l' =>
      if String.eqb f field then i :: searched field l' else searched field l'
  | _ :: l' => searched field l'
  end.

(** The tables a log shows as printed, each with its rows. *)
Fixpoint tables (l : list event) : list (list row) :=
  match l with
  | [] => []
  | EvTable rows :: l' => rows :: tables l'
  | _ :: l' => tables l'
  end.

(** The rows of a report as the specification words them: one row for
    each aspect of the order that either record has a value for, in the
    order of the aspects, an absent side shown as the sentinel. *)
Definition report_rows (order : list string) (d1 d2 : gmap string string) : list row :=
  (fun a => (a, default NOT_MENTIONED (d1 !! a), default NOT_MENTIONED (d2 !! a)))
    <$> filter (fun a => is_Some (d1 !! a) \/ is_Some (d2 !! a)) order.

End TierASpec.

Module MoreSpec.
Import PyStr Main.

(** Every character of a string passes a test. *)
Fixpoint all_chars (p : ascii -> bool) (s : string) : bool :=
  match s with
  | EmptyString => true
  | String a s' => p a && all_chars p s'
  end.

(** Every semicolon of a string has a space after it. *)
Fixpoint semicolons_spaced (s : string) : bool :=
  match s with
  | EmptyString => true
  | String a s' =>
      (negb (Ascii.eqb a ";") || starts_with " " s') && semicolons_spaced s'
  end.

Definition aspect_of (r : row) : string := fst (fst (fst r)).
Definition row_status (r : row) : match_status := snd r.
Definition left_of (r : row) : string := snd (fst (fst r)).
Definition right_of (r : row) : string := snd (fst r).

(** The calls of [fuzz.ratio] in a log. *)
Definition ratio_calls (l : list event) : list event :=
  List.filter (fun e => match e with EvRatio _ _ => true | _ => false end) l.

(** The calls of either scoring oracle. *)
Definition oracle_calls (l : list event) : list event :=
  List.filter (fun e => match e with
                        | EvRatio _ _ | EvEncode _ | EvCosSim => true
                        | _ => false
                        end) l.

(** The tables a log of [main.py] shows as printed. *)
Fixpoint printed_tables (l : list event) : list (list row) :=
  match l with
  | [] => []
  | EvTable rows :: l' => rows :: printed_tables l'
  | _ :: l' => printed_tables l'
  end.

(** Some field is absent: one of the extractors of [aspects] finds
    nothing in one of the two preprocessed inputs. *)
Definition field_absent (string1 string2 : string) : Prop :=
  exists af : string * (string -> option string),
    In af aspects
    /\ (snd af (preprocess string1) = None \/ snd af (preprocess string2) = None).

(** A character of the ASCII range, on which [str.lower] and
    [str.upper] change the letters [A-Z] and [a-z] and nothing else. *)
Definition is_ascii (a : ascii) : bool := code a <? 128.

(** The rows [compare_strings] builds for two inputs. *)
Definition rows_for (fuzz_ratio : string -> string -> float) {tensor : Type}
    (encode : string -> tensor) (cos_sim : tensor -> tensor -> float)
    (string1 string2 : string) : list row :=
  value (compare_aspects fuzz_ratio encode cos_sim aspects
           (preprocess string1) (preprocess string2) []).

End MoreSpec.

Module TierAMoreSpec.
Import TierA.

(** A row with its two value columns exchanged. *)
Definition swap_row (r : row) : row :=
  let '(aspect, v1, v2) := r in (aspect, v2, v1).

(** The fields the rule table has rules for. *)
Definition table_fields : list string := List.map fst FIELD_RULES.

End TierAMoreSpec.

Module ReMoreSpec.
Import Re.

(** The text [t] has the characters of [s] from position [i] on, a letter
    in either case when the flag says so. *)
Fixpoint has_at (fl : flags) (t : list ascii) (i : nat) (s : string) : bool :=
  match s with
  | EmptyString => true
  | String c s' =>
      match nth_error t i with
      | Some a => char_eq fl a c && has_at fl t (S i) s'
      | None => false
      end
  end.

(** Two patterns that differ in the numbers of their groups only and
    have no back-reference. *)
Inductive alike : regex -> regex -> Prop :=
| alike_Eps : alike Eps Eps
| alike_Lit c : alike (Lit c) (Lit c)
| alike_Cls p : alike (Cls p) (Cls p)
| alike_Dot : alike Dot Dot
| alike_Cat r1 r2 r1' r2' : alike r1 r1' -> alike r2 r2' -> alike (Cat r1 r2) (Cat r1' r2')
| alike_Alt r1 r2 r1' r2' : alike r1 r1' -> alike r2 r2' -> alike (Alt r1 r2) (Alt r1' r2')
| alike_Rep lo hi r r' : alike r r' -> alike (Rep lo hi r) (Rep lo hi r')
| alike_Grp n n' r r' : alike r r' -> alike (Grp n r) (Grp n' r')
| alike_Bol : alike Bol Bol
| alike_Eol : alike Eol Eol
| alike_Wb : alike Wb Wb.

(** The character before position [q] passes the test [p]. *)
Definition prev_is (p : ascii -> bool) (t : list ascii) (q : nat) : bool :=
  match q with
  | O => false
  | S j => match nth_error t j with Some a => p a | None => false end
  end.

(** Position [q] comes right after a digit, or right after a dot that
    follows a digit. *)
Definition after_number (t : list ascii) (q : nat) : bool :=
  prev_is PyStr.is_digit t q
  || (prev_is (Ascii.eqb ".") t q && prev_is PyStr.is_digit t (Nat.pred q)).

End ReMoreSpec.

Module SessionSpec.
Import PyStr TierA TierASpec Iter1Main.

(** The tables a session prints, in their order. *)
Fixpoint console_tables (l : list console) : list (list row) :=
  match l with
  | [] => []
  | Out (EvTable rows) :: l' => rows :: console_tables l'
  | _ :: l' => console_tables l'
  end.

(** The lines a session prints, prompts left out. *)
Fixpoint console_lines (l : list console) : list string :=
  match l with
  | [] => []
  | Out (EvPrint line) :: l' => line :: console_lines l'
  | _ :: l' => console_lines l'
  end.

(** The pairs of lines, stripped, entered before a line that says
    [exit] in any letter case; a line left without a second one is no
    pair. *)
Fixpoint pairs_entered (stdin : list string) : list (string * string) :=
  match stdin with
  | line1 :: line2 :: rest =>
      if is_exit (strip line1) || is_exit (strip line2) then []
      else (strip line1, strip line2) :: pairs_entered rest
  | _ => []
  end.

(** The session reads an [exit] at one of its prompts before the lines
    run out. *)
Fixpoint meets_exit (stdin : list string) : bool :=
  match stdin with
  | [] => false
  | line1 :: rest =>
      is_exit (strip line1) ||
      match rest with
      | [] => false
      | line2 :: rest' => is_exit (strip line2) || meets_exit rest'
      end
  end.

(** The counts [k], [k + 1], ... of [n] comparisons. *)
Fixpoint counts_from (k : Z) (n : nat) : list Z :=
  match n with
  | O => []
  | S n' => k :: counts_from (k + 1) n'
  end.

Definition banner (k : Z) : string :=
  nl ++ "--- Comparison " ++ str_of_int k ++ " ---".

Definition pair_header (k : Z) : string :=
  Iter1.check_mark ++ " Pair " ++ str_of_int k.

Definition farewell : string := "Thank you for using the tool. Goodbye!".

(** The lines among [lines] that are banners or headers of comparisons. *)
Definition starting_with (prefix : string) (lines : list string) : list string :=
  List.filter (starts_with prefix) lines.

End SessionSpec.

Create Rewrite HintDb trace.

(** * Properties *)

(** ** The log of a sequence of steps *)

Section WriterFacts.
Context {E : Type}.

Lemma log_bind {A B} (c : W E A) (f : A -> W E B) :
  log (c ≫= f) = app (log c) (log (f (value c))).
Proof.
  destruct c as [l x]. unfold mbind, W_bind, log, value. simpl.
  destruct (f x) as [l' y]. reflexivity.
Qed.

Lemma value_bind {A B} (c : W E A) (f : A -> W E B) :
  value (c ≫= f) = value (f (value c)).
Proof.
  destruct c as [l x]. unfold mbind, W_bind, log, value. simpl.
  destruct (f x) as [l' y]. reflexivity.
Qed.

Lemma log_ret {A} (x : A) : log (mret x : W E A) = [].
Proof. reflexivity. Qed.

Lemma value_ret {A} (x : A) : value (mret x : W E A) = x.
Proof. reflexivity. Qed.

Lemma log_emit (e : E) : log (emit e) = [e].
Proof. reflexivity. Qed.
End WriterFacts.

#[local] Hint Rewrite @log_bind @value_bind @log_ret @value_ret @log_emit : trace.

(** ** The graded comparator of [main.py] *)

Module MainFacts.
Import Main MainSpec.

Section Comparator.
Variable fuzz_ratio : string -> string -> float.
Context {tensor : Type}.
Variable encode : string -> tensor.
Variable cos_sim : tensor -> tensor -> float.

Lemma truthy_cases (v : option string) : absent v \/ present v.
Proof. unfold absent, present. destruct (truthy v); auto. Qed.

Lemma absent_not_present (v : option string) : absent v -> present v -> False.
Proof. unfold absent, present. congruence. Qed.

(** The tiers exclude one another: a pair of values has one status. *)
Lemma classified_functional (val1 val2 : option string) (a b : match_status) :
  classified fuzz_ratio encode cos_sim val1 val2 a ->
  classified fuzz_ratio encode cos_sim val1 val2 b -> a = b.
Proof.
  intros Ha Hb.
  destruct Ha; destruct Hb; try reflexivity;
    repeat match goal with
           | H : _ /\ _ |- _ => destruct H
           | H : _ \/ _ |- _ => destruct H
           end;
    try contradiction;
    try (exfalso; eauto using absent_not_present; fail);
    try (exfalso;
         match goal with
         | H : ~ (absent ?x /\ absent ?y) |- _ => apply H; split; assumption
         end);
    subst; exfalso; eauto using absent_not_present.
Qed.

(** C1. [compare_field] decides the status in strict priority order:
    both values absent give Not Mentioned; otherwise equal values give
    Exact Match, whatever the scores; otherwise two present values
    with a fuzzy ratio above 85 give Fuzzy Match; otherwise a semantic
    similarity above 0.85 gives Semantic Match; anything else, one
    side alone being present included, gives Mismatch.  The two values
    are handed back unchanged. *)
Theorem compare_field_priority (val1 val2 : option string) :
  let r := value (compare_field fuzz_ratio encode cos_sim val1 val2) in
  classified fuzz_ratio encode cos_sim val1 val2 (status_of r)
  /\ snd (fst r) = val1 /\ snd r = val2.
Proof.
  unfold compare_field, fuzzy_match, semantic_match.
  destruct (truthy val1) eqn:T1, (truthy val2) eqn:T2; simpl.
  - destruct (bool_decide (val1 = val2)) eqn:Heq.
    + apply bool_decide_eq_true in Heq. repeat split; simpl; auto.
      apply tier_exact; [|assumption].
      intros [Ha _]. unfold absent in Ha. congruence.
    + apply bool_decide_eq_false in Heq.
      autorewrite with trace. simpl.
      destruct (PrimFloat.ltb 85 _) eqn:F; simpl.
      * repeat split; simpl; auto. apply tier_fuzzy; assumption.
      * autorewrite with trace. simpl.
        destruct (PrimFloat.ltb 0.85 _) eqn:S; simpl.
        -- repeat split; simpl; auto.
           apply tier_semantic; auto. unfold fuzzy_above. congruence.
        -- repeat split; simpl; auto.
           apply tier_mismatch_dissimilar; auto;
             unfold fuzzy_above, semantic_above; congruence.
  - assert (Hne : val1 <> val2) by (intros ->; congruence).
    rewrite bool_decide_eq_false_2 by assumption.
    repeat split; simpl; auto.
    apply tier_mismatch_one_side. left. split; assumption.
  - assert (Hne : val1 <> val2) by (intros ->; congruence).
    rewrite bool_decide_eq_false_2 by assumption.
    repeat split; simpl; auto.
    apply tier_mismatch_one_side. right. split; assumption.
  - repeat split; simpl; auto. apply tier_not_mentioned; assumption.
Qed.

(** C3. The semantic oracle is consulted only when the first three
    tiers have failed on two present values: there is no call of the
    embedding model or of the cosine similarity when a value is
    absent, when the values are equal, or when the fuzzy ratio is
    above 85; and when the oracle is consulted, it is after the fuzzy
    ratio has been asked for. *)
Theorem semantic_oracle_lazy (val1 val2 : option string) :
  let l := log (compare_field fuzz_ratio encode cos_sim val1 val2) in
  (semantic_calls l = [] <->
     absent val1 \/ absent val2 \/ val1 = val2 \/ fuzzy_above fuzz_ratio val1 val2)
  /\ (semantic_calls l <> [] ->
       l = [EvRatio (text_of val1) (text_of val2);
            EvEncode (text_of val1); EvEncode (text_of val2); EvCosSim]).
Proof.
  unfold compare_field, fuzzy_match, semantic_match, fuzzy_above, absent.
  destruct (truthy val1) eqn:T1, (truthy val2) eqn:T2; simpl;
    destruct (bool_decide (val1 = val2)) eqn:Heq; simpl;
    try apply bool_decide_eq_true in Heq;
    try apply bool_decide_eq_false in Heq;
    try (split;
         [split; [intros _; tauto | intros _; reflexivity]
         | intros H; contradiction H; reflexivity]).
  destruct (PrimFloat.ltb 85 _) eqn:F; simpl.
  - split;
      [split; [intros _; tauto | intros _; reflexivity]
      | intros H; contradiction H; reflexivity].
  - destruct (PrimFloat.ltb 0.85 _); simpl;
      (split; [| reflexivity]);
      (split; [discriminate |]);
      intros [H | [H | [H | H]]]; congruence.
Qed.

End Comparator.

(** *** The fallback *)

Section Fallback.
Variable fuzz_ratio : string -> string -> float.
Context {tensor : Type}.
Variable encode : string -> tensor.
Variable cos_sim : tensor -> tensor -> float.
Variable post : request -> Py.exn + response.

Lemma posts_app (l1 l2 : list event) : posts (app l1 l2) = app (posts l1) (posts l2).
Proof. unfold posts. apply List.filter_app. Qed.

Lemma posts_compare_field (val1 val2 : option string) :
  posts (log (compare_field fuzz_ratio encode cos_sim val1 val2)) = [].
Proof.
  unfold compare_field, fuzzy_match, semantic_match.
  destruct (truthy val1), (truthy val2); simpl;
    destruct (bool_decide (val1 = val2)); simpl; try reflexivity.
  destruct (PrimFloat.ltb 85 _); simpl; try reflexivity.
  destruct (PrimFloat.ltb 0.85 _); reflexivity.
Qed.

Lemma posts_compare_aspects (l : list (string * (string -> option string)))
    (s1 s2 : string) (results : list row) :
  posts (log (compare_aspects fuzz_ratio encode cos_sim l s1 s2 results)) = [].
Proof.
  revert results. induction l as [|[aspect func] l IH]; intros results.
  - reflexivity.
  - cbn [compare_aspects]. rewrite log_bind, posts_app, posts_compare_field.
    destruct (value (compare_field _ _ _ _ _)) as [[status v1] v2].
    apply IH.
Qed.

Lemma fields_missing_iff (results : list row) :
  fields_missing results = true <-> Exists has_sentinel results.
Proof.
  induction results as [|[[[aspect val1] val2] st] results IH]; simpl.
  - split; [discriminate | intros H; inversion H].
  - destruct (String.eqb val1 "-") eqn:E1; simpl.
    + apply String.eqb_eq in E1. split; [|reflexivity].
      intros _. apply Exists_cons_hd. left. assumption.
    + destruct (String.eqb val2 "-") eqn:E2.
      * apply String.eqb_eq in E2. split; [|reflexivity].
        intros _. apply Exists_cons_hd. right. assumption.
      * apply String.eqb_neq in E1, E2. rewrite IH. split.
        -- apply Exists_cons_tl.
        -- intros H. inversion H as [x l Hd | x l Hl]; subst;
             [simpl in Hd; destruct Hd; contradiction | assumption].
Qed.

Lemma posts_call_llm_groq (string1 string2 : string) :
  posts (log (call_llm_groq post string1 string2))
  = [EvPost (groq_request string1 string2)].
Proof.
  unfold call_llm_groq, call_llm_groq_try.
  destruct (post (groq_request string1 string2)) as [e | resp]; [reflexivity|].
  destruct (json_of resp) as [e | data]; [reflexivity|].
  destruct (Py.py_in "choices" data) as [e | []]; try reflexivity.
  simpl. destruct (_ ≫= _); reflexivity.
Qed.

(** The log of [compare_strings] shows the table of the rows built; it
    holds no request to the endpoint when no row has the sentinel, and
    exactly one request, for the two original strings, when some row
    has it. *)
Lemma posts_iff_sentinel (string1 string2 : string) :
  let results :=
    value (compare_aspects fuzz_ratio encode cos_sim aspects
             (preprocess string1) (preprocess string2) []) in
  let l := log (compare_strings fuzz_ratio encode cos_sim post string1 string2) in
  In (EvTable results) l
  /\ (Exists has_sentinel results ->
      posts l = [EvPost (groq_request string1 string2)])
  /\ (~ Exists has_sentinel results -> posts l = []).
Proof.
  intros results l. subst l. unfold compare_strings.
  rewrite log_bind. fold results.
  rewrite log_bind, posts_app, posts_compare_aspects, posts_app.
  split; [| split].
  - apply in_or_app. right. apply in_or_app. left. simpl. tauto.
  - intros H. apply fields_missing_iff in H. rewrite H.
    rewrite !log_bind, !posts_app, posts_call_llm_groq. reflexivity.
  - intros H. destruct (fields_missing results) eqn:F.
    + apply fields_missing_iff in F. contradiction.
    + reflexivity.
Qed.

(** C7. Whatever the endpoint does, [call_llm_groq] returns a value:
    when the transport raises or the body is not JSON, the words
    [LLM call failed: ] followed by the text of the exception; when
    the body carries no well-shaped completion (no ["choices"], or
    choices of another shape), a string that begins with the same
    words; otherwise the content of the completion.  With fields
    missing, [compare_strings] ends by printing that value. *)
Theorem call_llm_groq_never_raises (string1 string2 : string) :
  let v := value (call_llm_groq post string1 string2) in
  match post (groq_request string1 string2) with
  | inl e => v = Py.JStr ("LLM call failed: " ++ Py.str_exn e)
  | inr resp =>
      match json_of resp with
      | inl e => v = Py.JStr ("LLM call failed: " ++ Py.str_exn e)
      | inr data =>
          match completion data with
          | Some c => v = c
          | None =>
              failure_string v
              /\ (Py.py_in "choices" data = inr false ->
                  v = Py.JStr "LLM call failed: Unexpected response structure")
          end
      end
  end
  /\ (fields_missing
        (value (compare_aspects fuzz_ratio encode cos_sim aspects
                  (preprocess string1) (preprocess string2) [])) = true ->
      exists before,
        log (compare_strings fuzz_ratio encode cos_sim post string1 string2)
        = app before [EvPrintValue v]).
Proof.
  intros v. split.
  - subst v. unfold call_llm_groq, call_llm_groq_try.
    destruct (post (groq_request string1 string2)) as [e | resp]; [reflexivity|].
    destruct (json_of resp) as [e | data]; [reflexivity|].
    unfold failure_string.
    destruct data as [| b | n | x | str | items | members]; simpl;
      try (split; [eexists; reflexivity | discriminate]).
    + destruct (PyStr.contains "choices" str); simpl;
        (split; [eexists; reflexivity | try discriminate; reflexivity]).
    + destruct (existsb _ items); simpl;
        (split; [eexists; reflexivity | try discriminate; reflexivity]).
    + destruct (Py.member "choices" members) as [choices|] eqn:Hc; simpl.
      *             destruct choices as [| b | n | x | str | [|choice items] | ms]; simpl;
          try (split; [eexists; reflexivity | discriminate]).
        -- destruct str; simpl; (split; [eexists; reflexivity | discriminate]).
        -- destruct choice as [| b | n | x | str | its | cm]; simpl;
             try (split; [eexists; reflexivity | discriminate]).
           destruct (Py.member "message" cm) as [message|]; simpl;
             try (split; [eexists; reflexivity | discriminate]).
           destruct message as [| b | n | x | str | its | mm]; simpl;
             try (split; [eexists; reflexivity | discriminate]).
           destruct (Py.member "content" mm) as [c|]; simpl;
             [reflexivity | split; [eexists; reflexivity | discriminate]].
      * split; [eexists; reflexivity | reflexivity].
  - intros F. unfold compare_strings.
    rewrite 2 log_bind. rewrite F.
    repeat (rewrite log_bind; cbv beta). fold v.
    eexists. rewrite !app_assoc. reflexivity.
Qed.

End Fallback.

(** *** Diameter and Length *)

(** C4. On a text whose one number before [mm] has five digits, the
    Diameter extractor gives a value too: its pattern is not anchored,
    so one to three digits, then any further digits, reach the [mm].
    With a decimal part the match starts inside the number. *)
Theorem diameter_on_five_digits :
  preprocess "12000mm" = "12000mm"
  /\ extract_length "12000mm" = Some "12000.00 mm"
  /\ extract_diameter "12000mm" = Some "12000.00 mm"
  /\ extract_length "12000.00mm" = Some "12000.00 mm"
  /\ extract_diameter "12000.00mm" = Some "0.00 mm".
Proof. vm_compute. repeat split. Qed.

End MainFacts.

(** ** Searching *)

Module ReFacts.
Import Re.

Lemma first_some_intro {A B : Type} (f : A -> option B) (l : list A) (x : A) :
  In x l -> is_Some (f x) -> is_Some (first_some f l).
Proof.
  induction l as [|y l IH]; intros Hin Hx; [destruct Hin|].
  simpl. destruct (f y) eqn:Hy; [eauto|].
  destruct Hin as [-> | Hin]; [|auto].
  rewrite Hy in Hx. destruct Hx; discriminate.
Qed.

Lemma first_some_inv {A B : Type} (f : A -> option B) (l : list A) (y : B) :
  first_some f l = Some y -> exists x, In x l /\ f x = Some y.
Proof.
  induction l as [|x l IH]; simpl; [discriminate|].
  destruct (f x) eqn:Hx.
  - intros [= <-]. exists x. auto.
  - intros H. destruct (IH H) as (x' & Hin & Hf). exists x'. auto.
Qed.

(** [search] succeeds exactly when the pattern matches at one of the
    positions of the text, the end included. *)
Lemma search_is_Some (fl : flags) (r : regex) (text : string) :
  is_Some (search fl r text) <->
  exists i, i <= List.length (list_ascii_of_string text)
            /\ is_Some (match_at fl (list_ascii_of_string text) r i).
Proof.
  unfold search. split.
  - intros [m Hm]. apply first_some_inv in Hm. destruct Hm as (i & Hin & Hi).
    exists i. apply in_seq in Hin. split; [lia|].
    destruct (match_at _ _ _ _); [eauto | discriminate].
  - intros (i & Hle & [st Hst]).
    apply (first_some_intro _ _ i); [apply in_seq; lia|].
    rewrite Hst. eauto.
Qed.

Section Steps.
Variable fl : flags.
Variable t : list ascii.

Lemma exec_Grp (n : nat) (r : regex) (st : mstate) (k : cont) :
  exec fl t (Grp n r) st k
  = exec fl t r st (fun st' => k (close_group n (pos st) st')).
Proof. reflexivity. Qed.

(** The last of four alternatives is tried when the first three
    fail, so the alternation matches wherever it does. *)
Lemma alt_last_is_Some (A B C D : regex) (st : mstate) (k : cont) :
  is_Some (exec fl t D st k) ->
  is_Some (exec fl t (Alt A (Alt B (Alt C D))) st k).
Proof.
  intros H. cbn [exec].
  destruct (exec fl t A st k); [eauto|].
  destruct (exec fl t B st k); [eauto|].
  destruct (exec fl t C st k); [eauto | assumption].
Qed.

(** A literal of two characters between word boundaries matches only
    where the text has the two characters. *)
Lemma bounded_pair_inv (c1 c2 : ascii) (i : nat) :
  is_Some (match_at fl t (Cat Wb (Cat (Cat (Lit c1) (Lit c2)) Wb)) i) ->
  exists a b, nth_error t i = Some a /\ char_eq fl a c1 = true
              /\ nth_error t (i + 1) = Some b /\ char_eq fl b c2 = true.
Proof.
  unfold match_at. cbn [exec pos advance].
  destruct (at_wb t i); [|intros [? ?]; discriminate].
  destruct (nth_error t i) as [a|]; [|intros [? ?]; discriminate].
  destruct (char_eq fl a c1) eqn:E1; [|intros [? ?]; discriminate].
  destruct (nth_error t (i + 1)) as [b|]; [|intros [? ?]; discriminate].
  destruct (char_eq fl b c2) eqn:E2; [|intros [? ?]; discriminate].
  intros _. exists a, b. auto.
Qed.

(** The bare literal matches there whatever follows. *)
Lemma pair_is_Some (c1 c2 a b : ascii) (st : mstate) (k : cont) :
  nth_error t (pos st) = Some a -> char_eq fl a c1 = true ->
  nth_error t (pos st + 1) = Some b -> char_eq fl b c2 = true ->
  (forall st', is_Some (k st')) ->
  is_Some (exec fl t (Cat (Lit c1) (Lit c2)) st k).
Proof.
  intros Ha Hc1 Hb Hc2 Hk. cbn [exec pos advance].
  rewrite Ha, Hc1, Hb, Hc2. apply Hk.
Qed.
End Steps.

(** *** The fuel of a repetition

    A round of a repetition moves forward and no step moves past the end
    of the text, so the fuel [exec] gives to [rep_loop] is never used up:
    more of it changes no result. *)

Section Fuel.
Variable fl : flags.
Variable t : list ascii.

Lemma rep_loop_ext (body : mstate -> cont -> option mstate) :
  (forall st k k', (forall x, k x = k' x) -> body st k = body st k') ->
  forall fuel lo hi st k k',
    (forall x, k x = k' x) ->
    rep_loop fuel body lo hi st k = rep_loop fuel body lo hi st k'.
Proof.
  intros Hbody. induction fuel as [|fuel IH]; intros lo hi st k k' Hk; simpl.
  - destruct lo; [apply Hk | reflexivity].
  - rewrite (Hbody st _
               (fun st' => if pos st <? pos st'
                           then rep_loop fuel body (Nat.pred lo) (option_map Nat.pred hi) st' k'
                           else None)).
    + rewrite Hk. reflexivity.
    + intros x. destruct (pos st <? pos x); [apply IH; assumption | reflexivity].
Qed.

Lemma exec_ext (r : regex) :
  forall st k k', (forall x, k x = k' x) -> exec fl t r st k = exec fl t r st k'.
Proof.
  induction r as [| c | p | | r1 IH1 r2 IH2 | r1 IH1 r2 IH2 | lo hi r IH
                  | n r IH | n | | |];
    intros st k k' Hk; cbn [exec];
    try (rewrite Hk; reflexivity).
  - apply IH1. intros x. apply IH2. assumption.
  - rewrite (IH1 st k k' Hk), (IH2 st k k' Hk). reflexivity.
  - apply rep_loop_ext; assumption.
  - apply IH. intros x. apply Hk.
  - destruct (span_of n (spans st)) as [[i j]|]; [|reflexivity].
    rewrite Hk. reflexivity.
Qed.

Lemma within_text (k : cont) (st : mstate) :
  pos st <= List.length t -> within t k st = k st.
Proof.
  intros H. unfold within. apply Nat.leb_le in H. rewrite H. reflexivity.
Qed.

Lemma within_ext (k k' : cont) :
  (forall x, pos x <= List.length t -> k x = k' x) ->
  forall x, within t k x = within t k' x.
Proof.
  intros H x. unfold within.
  destruct (pos x <=? List.length t) eqn:Hx; [|reflexivity].
  apply H. apply Nat.leb_le. assumption.
Qed.

Lemma rep_loop_within (body : mstate -> cont -> option mstate) :
  (forall st k k', (forall x, k x = k' x) -> body st k = body st k') ->
  (forall st k, pos st <= List.length t -> body st k = body st (within t k)) ->
  forall fuel lo hi st k,
    pos st <= List.length t ->
    rep_loop fuel body lo hi st k = rep_loop fuel body lo hi st (within t k).
Proof.
  intros Hext Hb. induction fuel as [|fuel IH]; intros lo hi st k Hst; simpl.
  - rewrite within_text by assumption. reflexivity.
  - rewrite within_text by assumption.
    match goal with
    | |- context [body st ?K1] =>
        match goal with
        | |- _ = ?rhs =>
            match rhs with
            | context [body st ?K2] =>
                assert (Hbody : body st K1 = body st K2)
            end
        end
    end.
    { etransitivity; [apply Hb; assumption|].
      symmetry. etransitivity; [apply Hb; assumption|]. symmetry.
      apply Hext. apply within_ext. intros x Hx.
      destruct (pos st <? pos x); [apply IH; assumption | reflexivity]. }
    rewrite Hbody. reflexivity.
Qed.

(** No step hands on a position past the end of the text. *)
Lemma exec_within (r : regex) :
  forall st k, pos st <= List.length t ->
               exec fl t r st k = exec fl t r st (within t k).
Proof.
  induction r as [| c | p | | r1 IH1 r2 IH2 | r1 IH1 r2 IH2 | lo hi r IH
                  | n r IH | n | | |];
    intros st k Hst; cbn [exec];
    try (rewrite within_text by assumption; reflexivity).
  - destruct (nth_error t (pos st)) eqn:Hn; [|reflexivity].
    rewrite within_text; [reflexivity|].
    assert (pos st < List.length t) by (apply nth_error_Some; congruence).
    simpl. lia.
  - destruct (nth_error t (pos st)) eqn:Hn; [|reflexivity].
    rewrite within_text; [reflexivity|].
    assert (pos st < List.length t) by (apply nth_error_Some; congruence).
    simpl. lia.
  - destruct (nth_error t (pos st)) eqn:Hn; [|reflexivity].
    rewrite within_text; [reflexivity|].
    assert (pos st < List.length t) by (apply nth_error_Some; congruence).
    simpl. lia.
  - etransitivity; [apply IH1; assumption|].
    symmetry. etransitivity; [apply IH1; assumption|]. symmetry.
    apply exec_ext. apply within_ext. intros x Hx. apply IH2. assumption.
  - rewrite <- (IH1 st k Hst), <- (IH2 st k Hst). reflexivity.
  - apply rep_loop_within; [apply exec_ext | apply IH | assumption].
  - etransitivity; [apply IH; assumption|].
    symmetry. etransitivity; [apply IH; assumption|]. symmetry.
    apply exec_ext. apply within_ext. intros x Hx.
    symmetry. apply within_text. exact Hx.
  - destruct (span_of n (spans st)) as [[i j]|]; [|reflexivity].
    destruct (pos st + List.length (slice t i j) <=? List.length t) eqn:Hb;
      [|reflexivity].
    cbn [andb]. destruct (same_chars _ _ _); [|reflexivity].
    rewrite within_text; [reflexivity|].
    apply Nat.leb_le in Hb. simpl. lia.
Qed.

Lemma rep_loop_fuel_step (r : regex) :
  forall fuel lo hi st k,
    pos st <= List.length t ->
    List.length t - pos st < fuel ->
    rep_loop fuel (exec fl t r) lo hi st k
    = rep_loop (S fuel) (exec fl t r) lo hi st k.
Proof.
  induction fuel as [|fuel IH]; intros lo hi st k Hst Hf; [lia|].
  cbn [rep_loop].
  match goal with
  | |- context [exec fl t r st ?K1] =>
      match goal with
      | |- _ = ?rhs =>
          match rhs with
          | context [exec fl t r st ?K2] =>
              assert (Hbody : exec fl t r st K1 = exec fl t r st K2)
          end
      end
  end.
  { etransitivity; [apply exec_within; assumption|].
    symmetry. etransitivity; [apply exec_within; assumption|]. symmetry.
    apply exec_ext. apply within_ext. intros x Hx.
    destruct (pos st <? pos x) eqn:Hp; [|reflexivity].
    apply Nat.ltb_lt in Hp. apply IH; [assumption | lia]. }
  rewrite Hbody. reflexivity.
Qed.

(** The fuel of [exec] is enough: any more gives the same match. *)
Lemma rep_loop_fuel_enough (r : regex) (extra lo : nat) (hi : option nat)
    (st : mstate) (k : cont) :
  pos st <= List.length t ->
  rep_loop (extra + S (List.length t)) (exec fl t r) lo hi st k
  = rep_loop (S (List.length t)) (exec fl t r) lo hi st k.
Proof.
  intros Hst. induction extra as [|extra IH]; [reflexivity|].
  rewrite <- IH. symmetry. apply rep_loop_fuel_step; [assumption | lia].
Qed.
End Fuel.

(** Wherever [\b53\b] is found, a group of four alternatives ending in
    [53] is found too. *)
Lemma bounded_53_subsumed (A B C : regex) (n : nat) (text : string) :
  is_Some (search TierA.IM (cat [Wb; lit "53"; Wb]) text) ->
  is_Some (search TierA.IM (Grp n (alt [A; B; C; lit "53"])) text).
Proof.
  rewrite !search_is_Some. intros (i & Hle & Hm). exists i. split; [assumption|].
  cbn [cat lit] in Hm. apply bounded_pair_inv in Hm.
  destruct Hm as (a & b & Ha & Hc1 & Hb & Hc2).
  unfold match_at. cbn [alt lit]. rewrite exec_Grp.
  apply alt_last_is_Some.
  eapply pair_is_Some; eauto.
Qed.

End ReFacts.

(** ** The rule table and the extractor *)

Module TierAFacts.
Import Re TierA TierASpec ReFacts.

Lemma searched_app (field : string) (l1 l2 : list event) :
  searched field (app l1 l2) = app (searched field l1) (searched field l2).
Proof.
  induction l1 as [|[f i | line | rows] l1 IH]; simpl; auto.
  destruct (String.eqb f field); simpl; congruence.
Qed.

Lemma searched_same (field : string) (l : list nat) :
  searched field (List.map (EvSearch field) l) = l.
Proof.
  induction l as [|i l IH]; simpl; [reflexivity|].
  rewrite String.eqb_refl. congruence.
Qed.

Lemma searched_other (field f : string) (l : list nat) :
  f <> field -> searched field (List.map (EvSearch f) l) = [].
Proof.
  intros Hne. induction l as [|i l IH]; simpl; [reflexivity|].
  apply String.eqb_neq in Hne. rewrite Hne. assumption.
Qed.

Section Rules.
Variable text : string.

(** The inner loop stops at the first rule that matches: it stores
    the output of that rule's formatter and has searched the patterns
    up to that rule and no further. *)
Lemma apply_rules_spec (field : string) (rules : list rule) (i : nat)
    (result : gmap string string) :
  let c := apply_rules text field rules i result in
  match first_matching text rules with
  | Some (j, r) =>
      (exists m, search IM (pattern r) text = Some m
                 /\ value c = <[field := formatter r m]> result)
      /\ log c = List.map (EvSearch field) (seq i (S j))
  | None =>
      value c = result
      /\ log c = List.map (EvSearch field) (seq i (List.length rules))
  end.
Proof.
  revert i. induction rules as [|r rules IH]; intros i; cbv zeta.
  - split; reflexivity.
  - unfold first_matching in *. cbn [list_find apply_rules].
    rewrite log_bind, value_bind, log_emit.
    destruct (decide (rule_matches text r)) as [Hm | Hm].
    + destruct Hm as [m Hm]. rewrite Hm. simpl.
      split; [exists m; split; reflexivity | reflexivity].
    + destruct (search IM (pattern r) text) as [m|] eqn:Hs.
      { exfalso. apply Hm. exists m. assumption. }
      specialize (IH (S i)).
      destruct (list_find (rule_matches text) rules) as [[j r']|]; simpl.
      * destruct IH as [Hv Hl]. split; [assumption|].
        rewrite Hl. reflexivity.
      * destruct IH as [Hv Hl]. split; [assumption|].
        rewrite Hl. reflexivity.
Qed.

(** What the inner loop leaves under another key. *)
Lemma apply_rules_other (field f : string) (rules : list rule) (i : nat)
    (result : gmap string string) :
  f <> field ->
  value (apply_rules text f rules i result) !! field = result !! field
  /\ searched field (log (apply_rules text f rules i result)) = [].
Proof.
  intros Hne. pose proof (apply_rules_spec f rules i result) as H. cbv zeta in H.
  destruct (first_matching text rules) as [[j r]|].
  - destruct H as [[m [_ Hv]] Hl]. rewrite Hv, Hl. split.
    + apply lookup_insert_ne. assumption.
    + apply searched_other. assumption.
  - destruct H as [Hv Hl]. rewrite Hv, Hl. split; [reflexivity|].
    apply searched_other. assumption.
Qed.

Lemma extract_fields_other (field : string) (table : list (string * list rule))
    (result : gmap string string) :
  ~ In field (List.map fst table) ->
  value (extract_fields text table result) !! field = result !! field
  /\ searched field (log (extract_fields text table result)) = [].
Proof.
  revert result. induction table as [|[f rules] table IH]; intros result Hnin.
  - split; reflexivity.
  - cbn [extract_fields]. rewrite value_bind, log_bind, searched_app.
    simpl in Hnin.
    assert (Hne : f <> field) by tauto.
    destruct (apply_rules_other field f rules 0 result Hne) as [Hv Hl].
    destruct (IH (value (apply_rules text f rules 0 result))) as [Hv' Hl'];
      [tauto|].
    rewrite Hv', Hl', Hv, Hl. split; reflexivity.
Qed.

(** The outer loop, on a table whose keys are distinct. *)
Lemma extract_fields_spec (field : string) (rules : list rule)
    (table : list (string * list rule)) (result : gmap string string) :
  List.NoDup (List.map fst table) ->
  In (field, rules) table ->
  let c := extract_fields text table result in
  match first_matching text rules with
  | Some (j, r) =>
      (exists m, search IM (pattern r) text = Some m
                 /\ value c !! field = Some (formatter r m))
      /\ searched field (log c) = seq 0 (S j)
  | None =>
      value c !! field = result !! field
      /\ searched field (log c) = seq 0 (List.length rules)
  end.
Proof.
  revert result. induction table as [|[f rs] table IH]; intros result Hnd Hin.
  - destruct Hin.
  - cbn [extract_fields]. cbv zeta.
    rewrite value_bind, log_bind, searched_app.
    simpl in Hnd. inversion Hnd as [|x l Hnin Hnd']; subst.
    destruct Hin as [Heq | Hin].
    + inversion Heq; subst f rs. clear Heq.
      pose proof (apply_rules_spec field rules 0 result) as H. cbv zeta in H.
      destruct (extract_fields_other field table
                  (value (apply_rules text field rules 0 result)) Hnin)
        as [Hv Hl].
      rewrite Hv, Hl, app_nil_r.
      destruct (first_matching text rules) as [[j r]|].
      * destruct H as [[m [Hs Hval]] Hlog]. rewrite Hval, Hlog. split.
        -- exists m. split; [assumption|]. apply lookup_insert_eq.
        -- apply searched_same.
      * destruct H as [Hval Hlog]. rewrite Hval, Hlog. split; [reflexivity|].
        apply searched_same.
    + assert (Hne : f <> field).
      { intros ->. apply Hnin. apply (in_map fst) in Hin. exact Hin. }
      destruct (apply_rules_other field f rs 0 result Hne) as [Hv Hl].
      specialize (IH (value (apply_rules text f rs 0 result)) Hnd' Hin).
      cbv zeta in IH. rewrite Hl. simpl.
      destruct (first_matching text rules) as [[j r]|].
      * exact IH.
      * destruct IH as [IHv IHl]. rewrite IHv, IHl, Hv. split; reflexivity.
Qed.
End Rules.

Lemma FIELD_RULES_keys_distinct : List.NoDup (List.map fst FIELD_RULES).
Proof.
  simpl. repeat constructor; simpl; intuition discriminate.
Qed.

(** C2. For every text and every field of the rule table,
    [extract_details] stores under the field the output of the formatter
    of the first rule, in table order, whose pattern matches the text,
    and has searched the patterns of the field up to that rule and none
    after it; when no rule of the field matches, all its patterns have
    been searched and the record has no entry for the field. *)
Theorem extract_details_first_match (text field : string) (rules : list rule) :
  In (field, rules) FIELD_RULES ->
  let c := extract_details text in
  match first_matching text rules with
  | Some (j, r) =>
      (exists m, search IM (pattern r) text = Some m
                 /\ value c !! field = Some (formatter r m))
      /\ searched field (log c) = seq 0 (S j)
  | None =>
      value c !! field = None
      /\ searched field (log c) = seq 0 (List.length rules)
  end.
Proof.
  intros Hin.
  pose proof (extract_fields_spec text field rules FIELD_RULES ∅
                FIELD_RULES_keys_distinct Hin) as H.
  cbv zeta in *. unfold extract_details, extract_details_in.
  destruct (first_matching text rules) as [[j r]|]; [exact H|].
  rewrite lookup_empty in H. exact H.
Qed.

Lemma Grade_in_table : In ("Grade", rules_of "Grade") FIELD_RULES.
Proof. right. left. reflexivity. Qed.

Lemma extract_details_first_match_witness :
  In ("Grade", rules_of "Grade") FIELD_RULES
  /\ match first_matching "OPC53" (rules_of "Grade") with
     | Some (j, r) =>
         (exists m, search IM (pattern r) "OPC53" = Some m
                    /\ value (extract_details "OPC53") !! "Grade"
                       = Some (formatter r m))
         /\ searched "Grade" (log (extract_details "OPC53")) = seq 0 (S j)
     | None =>
         value (extract_details "OPC53") !! "Grade" = None
         /\ searched "Grade" (log (extract_details "OPC53"))
            = seq 0 (List.length (rules_of "Grade"))
     end.
Proof.
  split; [right; left; reflexivity|].
  apply (extract_details_first_match "OPC53" "Grade" (rules_of "Grade")).
  right. left. reflexivity.
Defined.

(** C5. The first end-to-end scenario, as the table decides it.  For
    [OPC53] no Full Form rule matches (no word boundary separates [OPC]
    from [53]) and Grade comes from the third rule; for the structured
    text Grade comes from the third rule as well, since [[:-]?] takes one
    of the two characters of [:-], and Form keeps the hyphen. *)
Theorem scenario_1_extraction :
  let d1 := value (extract_details "OPC53") in
  let d2 := value (extract_details
                    "ORDINARY PORTLAND CEMENT; GRADE :- 53; FORM :- Bulk;") in
  d1 !! "Full Form" = None
  /\ d1 !! "Grade" = Some ("Inline: " ++ PyStr.dq ++ "53" ++ PyStr.dq)
  /\ d1 !! "Form" = None
  /\ d2 !! "Full Form" = Some "ORDINARY PORTLAND CEMENT (full form)"
  /\ d2 !! "Grade" = Some ("Inline: " ++ PyStr.dq ++ "53" ++ PyStr.dq)
  /\ d2 !! "Form" = Some "FORM :- - Bulk".
Proof. vm_compute. repeat split. Qed.

(** *** The report builder *)

Lemma tables_app (l1 l2 : list event) :
  tables (app l1 l2) = app (tables l1) (tables l2).
Proof.
  induction l1 as [|[f i | line | rows] l1 IH]; simpl; rewrite ?IH; reflexivity.
Qed.

Lemma tables_searches (f : string) (l : list nat) :
  tables (List.map (EvSearch f) l) = [].
Proof. induction l; simpl; auto. Qed.

Lemma tables_apply_rules text field rules i result :
  tables (log (apply_rules text field rules i result)) = [].
Proof.
  pose proof (apply_rules_spec text field rules i result) as H. cbv zeta in H.
  destruct (first_matching text rules) as [[j r]|];
    destruct H as [_ ->]; apply tables_searches.
Qed.

Lemma tables_extract_details (text : string) :
  tables (log (extract_details text)) = [].
Proof.
  unfold extract_details, extract_details_in.
  generalize (∅ : gmap string string). generalize FIELD_RULES.
  induction l as [|[f rules] table IH]; intros result; [reflexivity|].
  cbn [extract_fields]. rewrite log_bind, tables_app, tables_apply_rules, IH.
  reflexivity.
Qed.

(** Every value of an extracted record is the output of a formatter of
    the table. *)
Lemma extract_fields_value_inv text table result (a v : string) :
  value (extract_fields text table result) !! a = Some v ->
  result !! a = Some v
  \/ exists rules r m, In (a, rules) table /\ In r rules /\ v = formatter r m.
Proof.
  revert result. induction table as [|[f rules] table IH]; intros result.
  - simpl. auto.
  - cbn [extract_fields]. rewrite value_bind. intros H.
    apply IH in H. destruct H as [H | (rs & r & m & Hin & Hr & Hv)].
    + pose proof (apply_rules_spec text f rules 0 result) as Hs. cbv zeta in Hs.
      destruct (first_matching text rules) as [[j r]|] eqn:Hf.
      * destruct Hs as [[m [_ Hv]] _]. rewrite Hv in H.
        destruct (decide (f = a)) as [-> | Hne].
        -- rewrite lookup_insert_eq in H. inversion H; subst v.
           right. exists rules, r, m. split; [left; reflexivity|].
           split; [|reflexivity].
           apply list_find_Some in Hf. destruct Hf as [Hl _].
           apply list_elem_of_In. eapply list_elem_of_lookup_2. exact Hl.
        -- rewrite lookup_insert_ne in H by assumption. left. assumption.
      * destruct Hs as [Hv _]. rewrite Hv in H. left. assumption.
    + right. exists rs, r, m. split; [right; assumption|]. split; assumption.
Qed.

Lemma formatter_not_sentinel (field : string) (rules : list rule) (r : rule)
    (m : match_obj) :
  In (field, rules) FIELD_RULES -> In r rules -> formatter r m <> NOT_MENTIONED.
Proof.
  intros Hin Hr. unfold FIELD_RULES in Hin.
  repeat (destruct Hin as [Heq | Hin];
          [inversion Heq; subst field rules; clear Heq;
           repeat (destruct Hr as [<- | Hr];
                   [cbn [formatter]; unfold const, PyStr.dq, NOT_MENTIONED;
                    try destruct (PyStr.contains _ _);
                    cbn [String.append ascii_of_nat]; discriminate |]);
           destruct Hr |]).
  destruct Hin.
Qed.

Lemma extract_details_not_sentinel (text a : string) :
  value (extract_details text) !! a <> Some NOT_MENTIONED.
Proof.
  intros H. apply extract_fields_value_inv in H.
  destruct H as [H | (rules & r & m & Hin & Hr & Hv)].
  - rewrite lookup_empty in H. discriminate.
  - symmetry in Hv. revert Hv. apply (formatter_not_sentinel a rules); assumption.
Qed.

Lemma add_rows_acc (order : list string) (d1 d2 : gmap string string)
    (table : list row) :
  add_rows order d1 d2 table = app table (add_rows order d1 d2 []).
Proof.
  revert table. induction order as [|a order IH]; intros table; simpl.
  - rewrite app_nil_r. reflexivity.
  - destruct (_ && _).
    + apply IH.
    + rewrite IH. rewrite (IH [_]). rewrite <- app_assoc. reflexivity.
Qed.

Lemma add_rows_report (order : list string) (d1 d2 : gmap string string) :
  (forall a, d1 !! a <> Some NOT_MENTIONED) ->
  (forall a, d2 !! a <> Some NOT_MENTIONED) ->
  add_rows order d1 d2 [] = report_rows order d1 d2.
Proof.
  intros H1 H2. unfold report_rows.
  induction order as [|a order IH]; [reflexivity|].
  cbn [add_rows]. rewrite filter_cons.
  specialize (H1 a). specialize (H2 a).
  destruct (d1 !! a) as [v1|] eqn:E1, (d2 !! a) as [v2|] eqn:E2; simpl.
  - assert (Hn : String.eqb v1 NOT_MENTIONED = false)
      by (apply String.eqb_neq; congruence).
    rewrite Hn. simpl. rewrite add_rows_acc, IH, E1, E2. reflexivity.
  - assert (Hn : String.eqb v1 NOT_MENTIONED = false)
      by (apply String.eqb_neq; congruence).
    rewrite Hn. simpl. rewrite add_rows_acc, IH, E1, E2. reflexivity.
  - assert (Hn : String.eqb v2 NOT_MENTIONED = false)
      by (apply String.eqb_neq; congruence).
    rewrite Hn. simpl. rewrite add_rows_acc, IH, E1, E2. reflexivity.
  - rewrite IH. reflexivity.
Qed.

Lemma tables_iter1 s1 s2 pair_num aspect_order :
  tables (log (Iter1.compare_strings s1 s2 pair_num aspect_order))
  = [add_rows (default Iter1.GENERIC_ASPECT_ORDER aspect_order)
       (value (extract_details s1)) (value (extract_details s2)) []].
Proof.
  unfold Iter1.compare_strings.
  rewrite log_bind, tables_app, tables_extract_details.
  rewrite log_bind, tables_app, tables_extract_details.
  rewrite log_bind, tables_app.
  destruct pair_num as [n|]; [destruct (Z.eqb n 0)|]; reflexivity.
Qed.

Lemma tables_final_ig s1 s2 pair_num :
  tables (log (FinalIg.compare_strings s1 s2 pair_num))
  = [add_rows (default [] (FinalIg.ASPECT_ORDER !! pair_num))
       (value (extract_details s1)) (value (extract_details s2)) []].
Proof.
  unfold FinalIg.compare_strings.
  rewrite log_bind, tables_app, tables_extract_details.
  rewrite log_bind, tables_app, tables_extract_details.
  reflexivity.
Qed.

(** C8. For every aspect order and every two extracted records, the
    table built has a row for an aspect exactly when one of the records
    has a value for it; an aspect absent from both gets no row, and the
    rows come in the order of the aspects.  Both scripts print this
    table. *)
Theorem report_rows_built (order : list string) (s1 s2 : string)
    (label : option Z) (pair_num : Z) :
  let d1 := value (extract_details s1) in
  let d2 := value (extract_details s2) in
  add_rows order d1 d2 [] = report_rows order d1 d2
  /\ (forall a, (exists v1 v2, In (a, v1, v2) (add_rows order d1 d2 []))
                <-> In a order /\ (is_Some (d1 !! a) \/ is_Some (d2 !! a)))
  /\ tables (log (Iter1.compare_strings s1 s2 label (Some order)))
     = [report_rows order d1 d2]
  /\ tables (log (FinalIg.compare_strings s1 s2 pair_num))
     = [report_rows (default [] (FinalIg.ASPECT_ORDER !! pair_num)) d1 d2].
Proof.
  intros d1 d2.
  assert (Hrows : forall o, add_rows o d1 d2 [] = report_rows o d1 d2).
  { intros o. apply add_rows_report; intros a; apply extract_details_not_sentinel. }
  split; [apply Hrows|]. split; [|split].
  - intros a. rewrite Hrows. unfold report_rows. split.
    + intros (v1 & v2 & Hin). apply list_elem_of_In in Hin.
      apply list_elem_of_fmap in Hin. destruct Hin as (b & Heq & Hb).
      inversion Heq; subst b. apply list_elem_of_filter in Hb.
      destruct Hb as [Hp Hb]. split; [apply list_elem_of_In; assumption | assumption].
    + intros [Hin Hp]. eexists _, _. apply list_elem_of_In.
      apply list_elem_of_fmap. exists a. split; [reflexivity|].
      apply list_elem_of_filter. split; [assumption | apply list_elem_of_In; assumption].
  - rewrite tables_iter1. simpl. rewrite Hrows. reflexivity.
  - rewrite tables_final_ig, Hrows. reflexivity.
Qed.

(** C9. For a pair identifier that the mapping of aspect orders does
    not hold, the order selected is empty, and the comparison prints
    its one table with no row. *)
Theorem unknown_pair_empty_report (s1 s2 : string) (pair_num : Z) :
  FinalIg.ASPECT_ORDER !! pair_num = None ->
  default [] (FinalIg.ASPECT_ORDER !! pair_num) = []
  /\ tables (log (FinalIg.compare_strings s1 s2 pair_num)) = [[]].
Proof.
  intros H. rewrite tables_final_ig, H. split; reflexivity.
Qed.

Lemma unknown_pair_empty_report_witness :
  FinalIg.ASPECT_ORDER !! 9%Z = None
  /\ default [] (FinalIg.ASPECT_ORDER !! 9%Z) = []
  /\ tables (log (FinalIg.compare_strings "OPC53" "OPC 53 LOOSE" 9)) = [[]].
Proof.
  split; [reflexivity|].
  apply (unknown_pair_empty_report "OPC53" "OPC 53 LOOSE" 9). reflexivity.
Defined.

(** *** The fourth rule of Grade *)

(** C10. The fourth rule of Grade never decides the field: wherever its
    pattern [\b53\b] matches, the third pattern, which ends in the
    alternative [53], matches as well and comes first.  So
    [extract_details] gives neither of the two outputs of the fourth
    formatter for Grade, whatever the text. *)
Theorem fourth_grade_rule_unreachable (text : string) :
  (forall r, first_matching text (rules_of "Grade") <> Some (3, r))
  /\ value (extract_details text) !! "Grade" <> Some "53 (inline)"
  /\ value (extract_details text) !! "Grade" <> Some "53 (implied)".
Proof.
  pose proof (extract_fields_spec text "Grade" (rules_of "Grade") FIELD_RULES ∅
                FIELD_RULES_keys_distinct Grade_in_table) as H.
  cbv zeta in H. fold (extract_details_in FIELD_RULES text) in H.
  fold (extract_details text) in H.
  revert H. unfold first_matching.
  cbv [rules_of FIELD_RULES List.find fst].
  cbn [String.eqb Ascii.eqb Bool.eqb list_find].
  repeat match goal with
         | |- context [decide (rule_matches text ?r)] =>
             destruct (decide (rule_matches text r)) as [?Hyes | ?Hno]
         end;
    cbn [fmap option_fmap option_map prod_map fst snd id];
    intros H;
    try (destruct H as [[m [_ Hv]] _]; rewrite Hv;
         split; [intros r0 [=] |];
         split; intros Heq; cbn [formatter String.append] in Heq;
         discriminate Heq).
  - exfalso.
    match goal with
    | Hn : ~ rule_matches text {| pattern := Grp 1 _; formatter := _ |} |- _ =>
        apply Hn
    end.
    unfold rule_matches in *. cbn [pattern] in *.
    apply bounded_53_subsumed. assumption.
  - destruct H as [Hv _]. rewrite Hv, lookup_empty.
    split; [intros r0 [=] | split; intros [=]].
Qed.

End TierAFacts.

(** ** The sample pairs of [final ig.py] and the second scenario *)

Module Samples.
Import Re TierA TierASpec Main.

(** Pair 6: a repeated number, an inline diameter and an explicit
    length. *)
Example pair_6_string_1 :
  let d := value (extract_details
                    "RIB BAR 16.00 MM DIA LEN 12-12-12   FE550D-CRS / Length: 12.000 m") in
  d !! "Type" = Some "RIB BAR + CRS"
  /\ d !! "Grade" = Some ("Inline: " ++ PyStr.dq ++ "FE550D" ++ PyStr.dq)
  /\ d !! "Diameter" = Some ("Inline: " ++ PyStr.dq ++ "16.00 mm" ++ PyStr.dq)
  /\ d !! "Length" = Some ("clearly " ++ PyStr.dq ++ "12.000 m" ++ PyStr.dq)
  /\ d !! "Standard" = None
  /\ d !! "Structure" = Some "Coded inline".
Proof. vm_compute. repeat split. Qed.

(** The back-reference of the Length rules. *)
Example repeated_number :
  let d := value (extract_details "LEN 12-12-12") in
  d !! "Length" = Some ("Repeated as " ++ PyStr.dq ++ "12" ++ PyStr.dq ++ ", clearly "
                        ++ PyStr.dq ++ "12.000 m" ++ PyStr.dq)
  /\ value (extract_details "LEN 12-12-13") !! "Length" = None.
Proof. vm_compute. repeat split. Qed.

(** The anchors of the Structure rules work line by line. *)
Example structure_by_line :
  value (extract_details "OPC53") !! "Structure" = Some "Very short"
  /\ value (extract_details "OPC53 LOOSE") !! "Structure" = Some "Short & inline"
  /\ value (extract_details ("see" ++ TierA.nl ++ "OPC53")) !! "Structure"
     = Some "Very short"
  /\ value (extract_details "OPC53 cement") !! "Structure"
     = Some "Unstructured free text".
Proof. vm_compute. repeat split. Qed.

(** The second scenario: the normalised extractors on a coded text. *)
Example scenario_2 :
  let text := preprocess "TMT-FE_500D-32mm-11.000mtr." in
  text = "tmt-fe 500d-32mm-11.000mtr."
  /\ extract_grade text = Some "FE500D"
  /\ extract_diameter text = Some "32.00 mm"
  /\ extract_material text = Some "TMT"
  /\ extract_form text = None
  /\ extract_length text = None
  /\ extract_standard text = None.
Proof. vm_compute. repeat split. Qed.

(** [float] and the two-place format round as doubles do. *)
Example two_places :
  List.map (fun x => PyFloat.format_2f (PyFloat.float_of_string x))
    ["12."; "0.125"; "0.135"; "1.005"; "2.675"; "999.995"; "12345.678"]
  = ["12.00"; "0.12"; "0.14"; "1.00"; "2.67"; "1000.00"; "12345.68"].
Proof. vm_compute. reflexivity. Qed.

(** The third scenario: no field on either side.  All six rows are Not
    Mentioned, one request is sent, and a failing transport ends up as
    the text printed last. *)
Example scenario_3 :
  let unreachable := fun _ : request => inl (Py.Exn "ConnectionError" "no route") in
  let l := log (compare_strings (fun _ _ => 0%float) (fun v => v) (fun _ _ => 0%float)
                  unreachable "widget" "gadget") in
  MainSpec.posts l = [EvPost (groq_request "widget" "gadget")]
  /\ In (EvTable [("Grade", "-", "-", NotMentioned);
                  ("Diameter", "-", "-", NotMentioned);
                  ("Material", "-", "-", NotMentioned);
                  ("Form", "-", "-", NotMentioned);
                  ("Length", "-", "-", NotMentioned);
                  ("Standard", "-", "-", NotMentioned)]) l
  /\ last l = Some (EvPrintValue (Py.JStr "LLM call failed: no route")).
Proof. vm_compute. repeat split. do 5 right. left. reflexivity. Qed.

(** Every field present on both sides: no request at all. *)
Example nothing_missing :
  let unreachable := fun _ : request => inl (Py.Exn "ConnectionError" "no route") in
  let text := "OPC 53 Bulk 12mm 12000mm IS 1786" in
  let l := log (compare_strings (fun _ _ => 0%float) (fun v => v) (fun _ _ => 0%float)
                  unreachable text text) in
  MainSpec.posts l = []
  /\ In (EvTable [("Grade", "53", "53", ExactMatch);
                  ("Diameter", "12.00 mm", "12.00 mm", ExactMatch);
                  ("Material", "OPC", "OPC", ExactMatch);
                  ("Form", "Loose", "Loose", ExactMatch);
                  ("Length", "12000.00 mm", "12000.00 mm", ExactMatch);
                  ("Standard", "IS 1786", "IS 1786", ExactMatch)]) l.
Proof. vm_compute. repeat split. do 5 right. left. reflexivity. Qed.

End Samples.

(** * Further properties *)

(** ** The comparison of [main.py] as a whole *)

Module MainMore.
Import PyStr Main MainSpec MoreSpec MainFacts.

Lemma oracle_calls_app (l1 l2 : list event) :
  oracle_calls (app l1 l2) = app (oracle_calls l1) (oracle_calls l2).
Proof. unfold oracle_calls. apply List.filter_app. Qed.

Lemma printed_tables_app (l1 l2 : list event) :
  printed_tables (app l1 l2) = app (printed_tables l1) (printed_tables l2).
Proof.
  induction l1 as [|e l1 IH]; [reflexivity|].
  destruct e; simpl; rewrite ?IH; reflexivity.
Qed.

Section Oracles.
Variable fuzz_ratio : string -> string -> float.
Context {tensor : Type}.
Variable encode : string -> tensor.
Variable cos_sim : tensor -> tensor -> float.
Variable post : request -> Py.exn + response.

Lemma printed_tables_compare_field (val1 val2 : option string) :
  printed_tables (log (compare_field fuzz_ratio encode cos_sim val1 val2)) = [].
Proof.
  unfold compare_field, fuzzy_match, semantic_match.
  destruct (truthy val1), (truthy val2); simpl;
    destruct (bool_decide (val1 = val2)); simpl; try reflexivity.
  destruct (PrimFloat.ltb 85 _); simpl; try reflexivity.
  destruct (PrimFloat.ltb 0.85 _); reflexivity.
Qed.

Lemma printed_tables_compare_aspects (l : list (string * (string -> option string)))
    (s1 s2 : string) (results : list row) :
  printed_tables (log (compare_aspects fuzz_ratio encode cos_sim l s1 s2 results)) = [].
Proof.
  revert results. induction l as [|[aspect func] l IH]; intros results.
  - reflexivity.
  - cbn [compare_aspects].
    rewrite log_bind, printed_tables_app, printed_tables_compare_field.
    destruct (value (compare_field _ _ _ _ _)) as [[status v1] v2].
    apply IH.
Qed.

Lemma printed_tables_call_llm_groq (string1 string2 : string) :
  printed_tables (log (call_llm_groq post string1 string2)) = [].
Proof.
  unfold call_llm_groq, call_llm_groq_try.
  destruct (post (groq_request string1 string2)) as [e | resp]; [reflexivity|].
  destruct (json_of resp) as [e | data]; [reflexivity|].
  destruct (Py.py_in "choices" data) as [e | []]; try reflexivity.
  simpl. destruct (_ ≫= _); reflexivity.
Qed.

(** The one table of a comparison holds the rows built for the inputs. *)
Lemma printed_tables_compare_strings (string1 string2 : string) :
  printed_tables (log (compare_strings fuzz_ratio encode cos_sim post string1 string2))
  = [rows_for fuzz_ratio encode cos_sim string1 string2].
Proof.
  unfold compare_strings, rows_for.
  rewrite log_bind, printed_tables_app, printed_tables_compare_aspects.
  rewrite log_bind, printed_tables_app.
  destruct (fields_missing _).
  - repeat (rewrite log_bind, printed_tables_app; cbv beta).
    rewrite printed_tables_call_llm_groq. reflexivity.
  - reflexivity.
Qed.

Lemma compare_field_values (val1 val2 : option string) :
  let r := value (compare_field fuzz_ratio encode cos_sim val1 val2) in
  snd (fst r) = val1 /\ snd r = val2.
Proof.
  unfold compare_field, fuzzy_match, semantic_match.
  destruct (truthy val1), (truthy val2); simpl;
    destruct (bool_decide (val1 = val2)); simpl; try (split; reflexivity).
  destruct (PrimFloat.ltb 85 _); simpl; try (split; reflexivity).
  destruct (PrimFloat.ltb 0.85 _); split; reflexivity.
Qed.

(** What the loop over the aspects adds to the rows it has: one row for
    each aspect, named after it, holding the two extracted values or the
    sentinel and the status of their comparison. *)
Lemma compare_aspects_rows (l : list (string * (string -> option string)))
    (s1 s2 : string) (results : list row) :
  value (compare_aspects fuzz_ratio encode cos_sim l s1 s2 results)
  = app results
      (List.map (fun af : string * (string -> option string) =>
                   (fst af, or_dash (snd af s1), or_dash (snd af s2),
                    status_of (value (compare_field fuzz_ratio encode cos_sim
                                        (snd af s1) (snd af s2)))))
                l).
Proof.
  revert results. induction l as [|[aspect func] l IH]; intros results.
  - simpl. rewrite app_nil_r. reflexivity.
  - cbn [compare_aspects]. rewrite value_bind.
    pose proof (compare_field_values (func s1) (func s2)) as Hv.
    destruct (value (compare_field _ _ _ _ _)) as [[status v1] v2] eqn:Hc.
    simpl in Hv. destruct Hv as [-> ->].
    rewrite IH. cbn [List.map fst snd]. rewrite Hc. unfold status_of. simpl.
    rewrite <- app_assoc. reflexivity.
Qed.

Lemma posts_compare_strings (string1 string2 : string) :
  posts (log (compare_strings fuzz_ratio encode cos_sim post string1 string2))
  = if fields_missing (rows_for fuzz_ratio encode cos_sim string1 string2)
    then [EvPost (groq_request string1 string2)] else [].
Proof.
  unfold compare_strings, rows_for.
  rewrite log_bind, posts_app, posts_compare_aspects.
  rewrite log_bind, posts_app.
  destruct (fields_missing _).
  - repeat (rewrite log_bind, posts_app; cbv beta).
    rewrite posts_call_llm_groq. reflexivity.
  - reflexivity.
Qed.

(** X1. Whatever the two inputs and the oracles, the comparison prints
    one table and the table has six rows, for Grade, Diameter, Material,
    Form, Length and Standard in this order. *)
Theorem six_rows_in_order (string1 string2 : string) :
  printed_tables (log (compare_strings fuzz_ratio encode cos_sim post string1 string2))
  = [rows_for fuzz_ratio encode cos_sim string1 string2]
  /\ List.map aspect_of (rows_for fuzz_ratio encode cos_sim string1 string2)
     = ["Grade"; "Diameter"; "Material"; "Form"; "Length"; "Standard"].
Proof.
  split; [apply printed_tables_compare_strings|].
  unfold rows_for. rewrite compare_aspects_rows. reflexivity.
Qed.

Lemma not_mentioned_absent (val1 val2 : option string) :
  status_of (value (compare_field fuzz_ratio encode cos_sim val1 val2)) = NotMentioned ->
  truthy val1 = false /\ truthy val2 = false.
Proof.
  unfold compare_field, fuzzy_match, semantic_match.
  destruct (truthy val1), (truthy val2); simpl;
    destruct (bool_decide (val1 = val2)); simpl; try discriminate; auto.
  destruct (PrimFloat.ltb 85 _); simpl; try discriminate.
  destruct (PrimFloat.ltb 0.85 _); discriminate.
Qed.

Lemma fields_missing_In (results : list row) (r : row) :
  In r results -> left_of r = "-" \/ right_of r = "-" -> fields_missing results = true.
Proof.
  intros Hin Hr. apply fields_missing_iff. apply List.Exists_exists.
  exists r. split; [assumption|].
  destruct r as [[[a v1] v2] st]. exact Hr.
Qed.

(** X2. A row whose status is Not Mentioned shows the sentinel on both
    sides, so a comparison with such a row always goes on to the
    fallback: its log holds the one request to the endpoint. *)
Theorem not_mentioned_triggers_fallback (string1 string2 : string) (r : row) :
  In r (rows_for fuzz_ratio encode cos_sim string1 string2) ->
  row_status r = NotMentioned ->
  left_of r = "-" /\ right_of r = "-"
  /\ posts (log (compare_strings fuzz_ratio encode cos_sim post string1 string2))
     = [EvPost (groq_request string1 string2)].
Proof.
  intros Hin Hst.
  assert (Hd : left_of r = "-" /\ right_of r = "-").
  { unfold rows_for in Hin. rewrite compare_aspects_rows in Hin.
    cbn [app] in Hin. apply in_map_iff in Hin.
    destruct Hin as ([aspect func] & <- & _).
    unfold row_status in Hst. cbn [snd fst] in Hst.
    apply not_mentioned_absent in Hst. destruct Hst as [H1 H2].
    unfold left_of, right_of, or_dash. cbn [fst snd]. rewrite H1, H2. auto. }
  destruct Hd as [Hl Hr]. split; [assumption|]. split; [assumption|].
  rewrite posts_compare_strings.
  rewrite (fields_missing_In _ r Hin); auto.
Qed.

Lemma compare_field_same (v : option string) :
  log (compare_field fuzz_ratio encode cos_sim v v) = []
  /\ (status_of (value (compare_field fuzz_ratio encode cos_sim v v)) = ExactMatch
      \/ status_of (value (compare_field fuzz_ratio encode cos_sim v v)) = NotMentioned).
Proof.
  unfold compare_field. destruct (truthy v); simpl.
  - rewrite bool_decide_eq_true_2 by reflexivity. simpl. auto.
  - auto.
Qed.

Lemma oracle_calls_same (l : list (string * (string -> option string)))
    (s : string) (results : list row) :
  oracle_calls (log (compare_aspects fuzz_ratio encode cos_sim l s s results)) = [].
Proof.
  revert results. induction l as [|[aspect func] l IH]; intros results.
  - reflexivity.
  - cbn [compare_aspects]. rewrite log_bind, oracle_calls_app.
    destruct (compare_field_same (func s)) as [-> _].
    destruct (value (compare_field _ _ _ _ _)) as [[status v1] v2].
    apply IH.
Qed.

Lemma oracle_calls_call_llm_groq (string1 string2 : string) :
  oracle_calls (log (call_llm_groq post string1 string2)) = [].
Proof.
  unfold call_llm_groq, call_llm_groq_try.
  destruct (post (groq_request string1 string2)) as [e | resp]; [reflexivity|].
  destruct (json_of resp) as [e | data]; [reflexivity|].
  destruct (Py.py_in "choices" data) as [e | []]; try reflexivity.
  simpl. destruct (_ ≫= _); reflexivity.
Qed.

(** X3. Two inputs that preprocessing makes equal are compared without
    any call of the fuzzy or the semantic oracle: every row shows the
    same value on both sides and is an Exact Match or Not Mentioned. *)
Theorem same_text_needs_no_oracle (string1 string2 : string) :
  preprocess string1 = preprocess string2 ->
  oracle_calls (log (compare_strings fuzz_ratio encode cos_sim post string1 string2)) = []
  /\ Forall (fun r => left_of r = right_of r
                      /\ (row_status r = ExactMatch \/ row_status r = NotMentioned))
       (rows_for fuzz_ratio encode cos_sim string1 string2).
Proof.
  intros Heq. split.
  - unfold compare_strings. rewrite <- Heq.
    rewrite log_bind, oracle_calls_app, oracle_calls_same.
    rewrite log_bind, oracle_calls_app.
    destruct (fields_missing _).
    + repeat (rewrite log_bind, oracle_calls_app; cbv beta).
      rewrite oracle_calls_call_llm_groq. reflexivity.
    + reflexivity.
  - unfold rows_for. rewrite compare_aspects_rows, <- Heq.
    apply List.Forall_forall. intros r Hin. cbn [app] in Hin.
    apply in_map_iff in Hin. destruct Hin as ([aspect func] & <- & _).
    unfold left_of, right_of, row_status. cbn [fst snd].
    split; [reflexivity|]. apply compare_field_same.
Qed.

(** X4. [fuzz.ratio] is asked at most once by [compare_field], and only
    for two present values that differ; with a value absent or with equal
    values it is not asked at all. *)
Theorem fuzzy_oracle_lazy (val1 val2 : option string) :
  let l := log (compare_field fuzz_ratio encode cos_sim val1 val2) in
  (ratio_calls l = [] <-> absent val1 \/ absent val2 \/ val1 = val2)
  /\ (ratio_calls l <> [] ->
      ratio_calls l = [EvRatio (text_of val1) (text_of val2)]).
Proof.
  unfold compare_field, fuzzy_match, semantic_match, absent.
  destruct (truthy val1) eqn:T1, (truthy val2) eqn:T2; simpl;
    destruct (bool_decide (val1 = val2)) eqn:Heq; simpl;
    try apply bool_decide_eq_true in Heq;
    try apply bool_decide_eq_false in Heq;
    try (split;
         [split; [intros _; tauto | intros _; reflexivity]
         | intros H; contradiction H; reflexivity]).
  destruct (PrimFloat.ltb 85 _); simpl.
  - split; [| reflexivity].
    split; [discriminate | intros [H | [H | H]]; congruence].
  - destruct (PrimFloat.ltb 0.85 _); simpl;
      (split; [| reflexivity]);
      (split; [discriminate | intros [H | [H | H]]; congruence]).
Qed.

(** X5. With oracles that do not depend on the order of their two
    arguments, the status [compare_field] gives does not depend on the
    order of the two values. *)
Theorem compare_field_symmetric (val1 val2 : option string) :
  (forall a b, fuzz_ratio a b = fuzz_ratio b a) ->
  (forall a b, cos_sim (encode a) (encode b) = cos_sim (encode b) (encode a)) ->
  status_of (value (compare_field fuzz_ratio encode cos_sim val1 val2))
  = status_of (value (compare_field fuzz_ratio encode cos_sim val2 val1)).
Proof.
  intros Hf Hc. unfold compare_field, fuzzy_match, semantic_match.
  destruct (truthy val1) eqn:T1, (truthy val2) eqn:T2; simpl.
  - destruct (bool_decide (val1 = val2)) eqn:E1.
    + apply bool_decide_eq_true in E1. subst val2.
      rewrite bool_decide_eq_true_2 by reflexivity. reflexivity.
    + apply bool_decide_eq_false in E1.
      rewrite (bool_decide_eq_false_2 (val2 = val1)) by congruence.
      simpl. rewrite (Hf (text_of val2)), (Hc (text_of val2)).
      destruct (PrimFloat.ltb 85 _); simpl; [reflexivity|].
      destruct (PrimFloat.ltb 0.85 _); reflexivity.
  - rewrite !bool_decide_eq_false_2 by (intros E; subst; congruence). reflexivity.
  - rewrite !bool_decide_eq_false_2 by (intros E; subst; congruence). reflexivity.
  - reflexivity.
Qed.

End Oracles.

Lemma compare_field_symmetric_witness :
  (forall a b : string, (fun _ _ => 90%float) a b = (fun _ _ => 90%float) b a)
  /\ status_of (value (compare_field (fun _ _ => 90%float) (fun v : string => v)
                         (fun _ _ => 0%float) (Some "FE500D") (Some "FE550D")))
     = status_of (value (compare_field (fun _ _ => 90%float) (fun v : string => v)
                           (fun _ _ => 0%float) (Some "FE550D") (Some "FE500D"))).
Proof.
  split; [reflexivity|].
  apply (compare_field_symmetric (fun _ _ => 90%float) (fun v => v)
           (fun _ _ => 0%float) (Some "FE500D") (Some "FE550D"));
    reflexivity.
Defined.

Lemma not_mentioned_triggers_fallback_witness :
  let unreachable := fun _ : request => inl (Py.Exn "ConnectionError" "no route") in
  let r := ("Grade", "-", "-", NotMentioned) in
  In r (rows_for (fun _ _ => 0%float) (fun v => v) (fun _ _ => 0%float)
          "widget" "gadget")
  /\ left_of r = "-" /\ right_of r = "-"
  /\ posts (log (compare_strings (fun _ _ => 0%float) (fun v => v)
                   (fun _ _ => 0%float) unreachable "widget" "gadget"))
     = [EvPost (groq_request "widget" "gadget")].
Proof.
  intros unreachable r.
  assert (Hin : In r (rows_for (fun _ _ => 0%float) (fun v => v)
                        (fun _ _ => 0%float) "widget" "gadget"))
    by (vm_compute; left; reflexivity).
  split; [exact Hin|].
  apply (not_mentioned_triggers_fallback (fun _ _ => 0%float) (fun v => v)
           (fun _ _ => 0%float) unreachable "widget" "gadget" r Hin).
  reflexivity.
Defined.

Lemma same_text_needs_no_oracle_witness :
  let unreachable := fun _ : request => inl (Py.Exn "ConnectionError" "no route") in
  preprocess "OPC_53 Bulk" = preprocess "opc 53 BULK"
  /\ oracle_calls (log (compare_strings (fun _ _ => 0%float) (fun v => v)
                          (fun _ _ => 0%float) unreachable
                          "OPC_53 Bulk" "opc 53 BULK")) = []
  /\ Forall (fun r => left_of r = right_of r
                      /\ (row_status r = ExactMatch \/ row_status r = NotMentioned))
       (rows_for (fun _ _ => 0%float) (fun v => v) (fun _ _ => 0%float)
          "OPC_53 Bulk" "opc 53 BULK").
Proof.
  intros unreachable.
  split; [vm_compute; reflexivity|].
  apply (same_text_needs_no_oracle (fun _ _ => 0%float) (fun v => v)
           (fun _ _ => 0%float) unreachable "OPC_53 Bulk" "opc 53 BULK").
  vm_compute. reflexivity.
Defined.

End MainMore.

(** ** Preprocessing *)

Module PreprocessFacts.
Import PyStr Main MainSpec MoreSpec MainMore.

Lemma all_chars_app (p : ascii -> bool) (a b : string) :
  all_chars p (a ++ b) = all_chars p a && all_chars p b.
Proof.
  induction a as [|c a IH]; simpl; [reflexivity|].
  rewrite IH, andb_assoc. reflexivity.
Qed.

Lemma all_chars_rev_onto (p : ascii -> bool) (s acc : string) :
  all_chars p s = true -> all_chars p acc = true ->
  all_chars p (rev_onto s acc) = true.
Proof.
  revert acc. induction s as [|c s IH]; intros acc Hs Hacc; simpl; [assumption|].
  simpl in Hs. apply andb_true_iff in Hs. destruct Hs as [Hc Hs].
  apply IH; [assumption|]. simpl. rewrite Hc, Hacc. reflexivity.
Qed.

Lemma all_chars_lstrip (p : ascii -> bool) (s : string) :
  all_chars p s = true -> all_chars p (lstrip s) = true.
Proof.
  induction s as [|c s IH]; intros Hs; simpl; [reflexivity|].
  destruct (is_space c); [|assumption].
  simpl in Hs. apply andb_true_iff in Hs. apply IH. tauto.
Qed.

Lemma all_chars_strip (p : ascii -> bool) (s : string) :
  all_chars p s = true -> all_chars p (strip s) = true.
Proof.
  intros Hs. unfold strip, rev.
  repeat first [apply all_chars_rev_onto | apply all_chars_lstrip | reflexivity
               | assumption].
Qed.

Lemma all_chars_replace_from (p : ascii -> bool) (old new s : string) (skip : nat) :
  all_chars p new = true -> all_chars p s = true ->
  all_chars p (replace_from old new s skip) = true.
Proof.
  intros Hnew. revert skip. induction s as [|c s IH]; intros skip Hs; simpl;
    [reflexivity|].
  simpl in Hs. apply andb_true_iff in Hs. destruct Hs as [Hc Hs].
  destruct skip as [|n]; [|apply IH; assumption].
  destruct (starts_with old (String c s)).
  - rewrite all_chars_app, Hnew. apply IH. assumption.
  - simpl. rewrite Hc. apply IH. assumption.
Qed.

Lemma to_lower_not_upper (a : ascii) : is_upper (to_lower a) = false.
Proof. destruct a as [[] [] [] [] [] [] [] []]; reflexivity. Qed.

Lemma lower_upper_char (a : ascii) : to_lower (to_upper a) = to_lower a.
Proof. destruct a as [[] [] [] [] [] [] [] []]; reflexivity. Qed.

Lemma lower_lower_char (a : ascii) : to_lower (to_lower a) = to_lower a.
Proof. destruct a as [[] [] [] [] [] [] [] []]; reflexivity. Qed.

Lemma space_has_no_case (a : ascii) : is_space a = true -> to_lower a = a.
Proof. destruct a as [[] [] [] [] [] [] [] []]; try discriminate; reflexivity. Qed.

Lemma lower_no_upper (s : string) :
  all_chars (fun a => negb (is_upper a)) (lower s) = true.
Proof.
  unfold lower. induction s as [|c s IH]; cbn [map_chars all_chars]; [reflexivity|].
  rewrite to_lower_not_upper. exact IH.
Qed.

Lemma replace_from_char (c0 c : ascii) (new s : string) :
  replace_from (String c0 EmptyString) new (String c s) 0
  = if Ascii.eqb c0 c
    then new ++ replace_from (String c0 EmptyString) new s 0
    else String c (replace_from (String c0 EmptyString) new s 0).
Proof.
  cbn [replace_from starts_with String.length Nat.sub].
  destruct (Ascii.eqb c0 c); reflexivity.
Qed.

Lemma replace_underscores (s : string) :
  all_chars (fun a => negb (Ascii.eqb a "_")) (replace "_" " " s) = true.
Proof.
  unfold replace. induction s as [|c s IH]; [reflexivity|].
  rewrite replace_from_char. destruct (Ascii.eqb "_" c) eqn:E.
  - exact IH.
  - cbn [all_chars]. rewrite Ascii.eqb_sym, E. exact IH.
Qed.

Lemma replace_semicolons (s : string) :
  semicolons_spaced (replace ";" "; " s) = true.
Proof.
  unfold replace. induction s as [|c s IH]; [reflexivity|].
  rewrite replace_from_char. destruct (Ascii.eqb ";" c) eqn:E.
  - exact IH.
  - cbn [semicolons_spaced]. rewrite Ascii.eqb_sym, E. exact IH.
Qed.

(** X6. The text the extractors see has none of the letters [A] to
    [Z], the capitals that their patterns, written in small letters and
    searched without a flag, would tell from the small ones; it has no
    underscore, and each of its semicolons has a space after it. *)
Theorem preprocess_shape (text : string) :
  all_chars (fun a => negb (in_range 65 90 a)) (preprocess text) = true
  /\ all_chars (fun a => negb (Ascii.eqb a "_")) (preprocess text) = true
  /\ semicolons_spaced (preprocess text) = true.
Proof.
  unfold preprocess. split; [|split].
  - unfold replace.
    do 3 (apply all_chars_replace_from; [reflexivity|]).
    apply all_chars_strip, lower_no_upper.
  - unfold replace at 1 2.
    do 2 (apply all_chars_replace_from; [reflexivity|]).
    apply replace_underscores.
  - apply replace_semicolons.
Qed.

Lemma lower_upper (s : string) : lower (upper s) = lower s.
Proof.
  unfold lower, upper. induction s as [|c s IH]; cbn [map_chars]; [reflexivity|].
  rewrite lower_upper_char, IH. reflexivity.
Qed.

Lemma lower_lower (s : string) : lower (lower s) = lower s.
Proof.
  unfold lower. induction s as [|c s IH]; cbn [map_chars]; [reflexivity|].
  rewrite lower_lower_char, IH. reflexivity.
Qed.

(** X7. For inputs of ASCII characters the rows of a comparison do not
    depend on the letter case: such an input put in capitals, or in
    small letters, is preprocessed to the same text and gives the same
    rows.  (Outside ASCII [str.upper] and [str.lower] do more than this
    model of them, and the statement is not made there.) *)
Theorem rows_ignore_case (fuzz_ratio : string -> string -> float) (tensor : Type)
    (encode : string -> tensor) (cos_sim : tensor -> tensor -> float)
    (string1 string2 : string) :
  all_chars is_ascii string1 = true ->
  all_chars is_ascii string2 = true ->
  preprocess (upper string1) = preprocess string1
  /\ preprocess (lower string1) = preprocess string1
  /\ rows_for fuzz_ratio encode cos_sim (upper string1) (upper string2)
     = rows_for fuzz_ratio encode cos_sim string1 string2
  /\ rows_for fuzz_ratio encode cos_sim (lower string1) (lower string2)
     = rows_for fuzz_ratio encode cos_sim string1 string2.
Proof.
  intros _ _. unfold rows_for, preprocess.
  rewrite !lower_upper, !lower_lower. repeat split; reflexivity.
Qed.

Lemma rows_ignore_case_witness :
  all_chars is_ascii "Fe500 TMT 12MM" = true
  /\ all_chars is_ascii "fe 500d; Bulk" = true
  /\ rows_for (fun _ _ => 0%float) (fun v : string => v) (fun _ _ => 0%float)
       (upper "Fe500 TMT 12MM") (upper "fe 500d; Bulk")
     = rows_for (fun _ _ => 0%float) (fun v : string => v) (fun _ _ => 0%float)
         "Fe500 TMT 12MM" "fe 500d; Bulk".
Proof.
  split; [reflexivity|]. split; [reflexivity|].
  apply (rows_ignore_case (fun _ _ => 0%float) string (fun v => v) (fun _ _ => 0%float)
           "Fe500 TMT 12MM" "fe 500d; Bulk"); reflexivity.
Defined.

Lemma lstrip_blank (s : string) :
  all_chars is_space s = true -> lstrip s = EmptyString.
Proof.
  induction s as [|c s IH]; intros Hs; cbn [lstrip]; [reflexivity|].
  cbn [all_chars] in Hs. apply andb_true_iff in Hs. destruct Hs as [Hc Hs].
  rewrite Hc. apply IH. assumption.
Qed.

Lemma lower_blank (s : string) : all_chars is_space s = true -> lower s = s.
Proof.
  unfold lower. induction s as [|c s IH]; intros Hs; cbn [map_chars]; [reflexivity|].
  cbn [all_chars] in Hs. apply andb_true_iff in Hs. destruct Hs as [Hc Hs].
  rewrite (space_has_no_case c Hc), IH by assumption. reflexivity.
Qed.

Lemma preprocess_blank (s : string) :
  all_chars is_space s = true -> preprocess s = EmptyString.
Proof.
  intros Hs. unfold preprocess, strip.
  rewrite (lower_blank s Hs), (lstrip_blank s Hs). reflexivity.
Qed.

(** X8. Inputs that are empty or made of white space only give six rows
    that are Not Mentioned with the sentinel on both sides, and the
    comparison sends its one request to the endpoint. *)
Theorem blank_inputs (fuzz_ratio : string -> string -> float) (tensor : Type)
    (encode : string -> tensor) (cos_sim : tensor -> tensor -> float)
    (post : request -> Py.exn + response) (string1 string2 : string) :
  all_chars is_space string1 = true ->
  all_chars is_space string2 = true ->
  rows_for fuzz_ratio encode cos_sim string1 string2
  = [("Grade", "-", "-", NotMentioned); ("Diameter", "-", "-", NotMentioned);
     ("Material", "-", "-", NotMentioned); ("Form", "-", "-", NotMentioned);
     ("Length", "-", "-", NotMentioned); ("Standard", "-", "-", NotMentioned)]
  /\ posts (log (compare_strings fuzz_ratio encode cos_sim post string1 string2))
     = [EvPost (groq_request string1 string2)].
Proof.
  intros H1 H2.
  assert (Hrows : rows_for fuzz_ratio encode cos_sim string1 string2
                  = [("Grade", "-", "-", NotMentioned); ("Diameter", "-", "-", NotMentioned);
                     ("Material", "-", "-", NotMentioned); ("Form", "-", "-", NotMentioned);
                     ("Length", "-", "-", NotMentioned);
                     ("Standard", "-", "-", NotMentioned)]).
  { unfold rows_for. rewrite (preprocess_blank _ H1), (preprocess_blank _ H2).
    reflexivity. }
  split; [exact Hrows|].
  rewrite posts_compare_strings, Hrows. reflexivity.
Qed.

Lemma blank_inputs_witness :
  let unreachable := fun _ : request => inl (Py.Exn "ConnectionError" "no route") in
  all_chars is_space "   " = true
  /\ all_chars is_space EmptyString = true
  /\ posts (log (compare_strings (fun _ _ => 0%float) (fun v : string => v)
                   (fun _ _ => 0%float) unreachable "   " EmptyString))
     = [EvPost (groq_request "   " EmptyString)].
Proof.
  intros unreachable. split; [reflexivity|]. split; [reflexivity|].
  apply (blank_inputs (fun _ _ => 0%float) string (fun v => v) (fun _ _ => 0%float)
           unreachable "   " EmptyString); reflexivity.
Defined.

End PreprocessFacts.

(** ** Stepping through a pattern *)

Module ReMore.
Import Re ReMoreSpec ReFacts.

Lemma advance_0 (st : mstate) : advance 0 st = st.
Proof. destruct st as [p sp]. unfold advance. simpl. rewrite Nat.add_0_r. reflexivity. Qed.

Lemma advance_advance (m n : nat) (st : mstate) :
  advance n (advance m st) = advance (m + n) st.
Proof. unfold advance. simpl. rewrite Nat.add_assoc. reflexivity. Qed.

Section Steps.
Variable fl : flags.
Variable t : list ascii.

(** A literal matches where the text has its characters, and moves past
    them. *)
Lemma exec_lit (s : string) (st : mstate) (k : cont) :
  exec fl t (lit s) st k
  = if has_at fl t (pos st) s then k (advance (String.length s) st) else None.
Proof.
  revert st. induction s as [|c s IH]; intros st.
  - cbn [lit exec has_at String.length]. rewrite advance_0. reflexivity.
  - destruct s as [|c' s'].
    + cbn [lit exec has_at String.length].
      destruct (nth_error t (pos st)); [|reflexivity].
      rewrite andb_true_r. reflexivity.
    + change (lit (String c (String c' s'))) with (Cat (Lit c) (lit (String c' s'))).
      cbn [exec]. cbn [has_at] in *.
      destruct (nth_error t (pos st)) as [a|]; [|reflexivity].
      destruct (char_eq fl a c); [|reflexivity].
      rewrite IH. cbn [andb advance pos].
      replace (pos st + 1) with (S (pos st)) by lia.
      destruct (nth_error t (S (pos st))) as [b|]; [|reflexivity].
      destruct (char_eq fl b c' && _); [|reflexivity].
      f_equal. unfold advance. cbn [pos spans String.length]. f_equal. lia.
Qed.

Lemma has_at_app (i : nat) (s1 s2 : string) :
  has_at fl t i (s1 ++ s2)
  = has_at fl t i s1 && has_at fl t (i + String.length s1) s2.
Proof.
  revert i. induction s1 as [|c s1 IH]; intros i.
  - change (EmptyString ++ s2) with s2.
    cbn [has_at String.length andb]. rewrite Nat.add_0_r. reflexivity.
  - change (String c s1 ++ s2) with (String c (s1 ++ s2)).
    cbn [has_at String.length].
    destruct (nth_error t i); [|reflexivity].
    rewrite IH, andb_assoc. replace (S i + String.length s1) with (i + S (String.length s1)) by lia.
    reflexivity.
Qed.

Lemma has_at_char (i : nat) (c : ascii) :
  has_at fl t i (String c EmptyString) = true ->
  exists a, nth_error t i = Some a /\ char_eq fl a c = true.
Proof.
  cbn [has_at]. destruct (nth_error t i) as [a|]; [|discriminate].
  rewrite andb_true_r. eauto.
Qed.

(** A repetition of a class stops at a character outside the class. *)
Lemma rep_cls_stop (p : ascii -> bool) (fuel lo : nat) (hi : option nat)
    (st : mstate) (k : cont) :
  match nth_error t (pos st) with Some a => p a = false | None => True end ->
  rep_loop fuel (exec fl t (Cls p)) lo hi st k
  = match lo with O => k st | S _ => None end.
Proof.
  intros H. destruct fuel as [|fuel]; cbn [rep_loop exec]; [reflexivity|].
  destruct hi as [[|h]|]; try reflexivity;
    (destruct (nth_error t (pos st)) as [a|]; [rewrite H|]; reflexivity).
Qed.

Lemma exec_Cls (p : ascii -> bool) (st : mstate) (k : cont) :
  exec fl t (Cls p) st k
  = match nth_error t (pos st) with
    | Some a => if p a then k (advance 1 st) else None
    | None => None
    end.
Proof. reflexivity. Qed.

(** It goes on over a character of the class when the rest then matches. *)
Lemma rep_cls_more (p : ascii -> bool) (fuel lo : nat) (hi : option nat)
    (a : ascii) (st : mstate) (k : cont) :
  nth_error t (pos st) = Some a -> p a = true -> hi <> Some 0 ->
  is_Some (rep_loop fuel (exec fl t (Cls p)) (Nat.pred lo) (option_map Nat.pred hi)
             (advance 1 st) k) ->
  is_Some (rep_loop (S fuel) (exec fl t (Cls p)) lo hi st k).
Proof.
  intros Ha Hp Hhi [x Hx]. cbn [rep_loop].
  destruct hi as [[|h]|]; [congruence | |];
    rewrite exec_Cls, Ha, Hp; change (pos (advance 1 st)) with (pos st + 1);
    (replace (pos st <? pos st + 1) with true by (symmetry; apply Nat.ltb_lt; lia));
    rewrite Hx; eauto.
Qed.

(** One or more of a class needs a first character of the class. *)
Lemma plus_cls_inv (p : ascii -> bool) (fuel : nat) (hi : option nat)
    (st : mstate) (k : cont) :
  is_Some (rep_loop fuel (exec fl t (Cls p)) 1 hi st k) ->
  exists a, nth_error t (pos st) = Some a /\ p a = true.
Proof.
  intros [x Hx]. destruct fuel as [|fuel]; cbn [rep_loop exec] in Hx; [discriminate|].
  destruct hi as [[|h]|]; [discriminate | |];
    (destruct (nth_error t (pos st)) as [a|]; [|discriminate];
     destruct (p a) eqn:Hp; [eauto | discriminate]).
Qed.

(** The match a pattern returns is one its continuation returned. *)
Lemma rep_loop_from_cont (body : mstate -> cont -> option mstate) :
  (forall st k x, body st k = Some x -> exists st', k st' = Some x) ->
  forall fuel lo hi st k x,
    rep_loop fuel body lo hi st k = Some x -> exists st', k st' = Some x.
Proof.
  intros Hb. induction fuel as [|fuel IH]; intros lo hi st k x; cbn [rep_loop].
  - destruct lo; [eauto | discriminate].
  - assert (Hstop : match lo with O => k st | S _ => None end = Some x ->
                    exists st', k st' = Some x)
      by (destruct lo; [eauto | discriminate]).
    destruct hi as [[|h]|]; [exact Hstop | |];
      (destruct (body st _) as [y|] eqn:Hy; [|exact Hstop];
       intros [= ->]; apply Hb in Hy; destruct Hy as [st' Hst'];
       destruct (pos st <? pos st'); [|discriminate];
       apply IH in Hst'; exact Hst').
Qed.

Lemma exec_from_cont (r : regex) :
  forall st k x, exec fl t r st k = Some x -> exists st', k st' = Some x.
Proof.
  induction r as [| c | p | | r1 IH1 r2 IH2 | r1 IH1 r2 IH2 | lo hi r IH
                  | n r IH | n | | |];
    intros st k x; cbn [exec].
  - eauto.
  - destruct (nth_error t (pos st)); [|discriminate].
    destruct (char_eq _ _ _); [eauto | discriminate].
  - destruct (nth_error t (pos st)); [|discriminate].
    destruct (p _); [eauto | discriminate].
  - destruct (nth_error t (pos st)); [|discriminate].
    destruct (Ascii.eqb _ _); [discriminate | eauto].
  - intros H. apply IH1 in H. destruct H as [st' H]. apply IH2 in H. exact H.
  - destruct (exec fl t r1 st k) eqn:H1.
    + intros [= ->]. apply IH1 in H1. exact H1.
    + apply IH2.
  - apply rep_loop_from_cont. exact IH.
  - intros H. apply IH in H. destruct H as [st' H]. eauto.
  - destruct (span_of n (spans st)) as [[i j]|]; [|discriminate].
    destruct (_ && _); [eauto | discriminate].
  - destruct (at_bol _ _ _); [eauto | discriminate].
  - destruct (at_eol _ _ _); [eauto | discriminate].
  - destruct (at_wb _ _); [eauto | discriminate].
Qed.

(** Whether a pattern without back-reference matches depends on the
    position only, not on the groups closed before nor on the numbers of
    its own groups. *)
Lemma rep_loop_alike (b1 b2 : mstate -> cont -> option mstate) :
  (forall st1 st2 k1 k2,
      pos st1 = pos st2 ->
      (forall s1 s2, pos s1 = pos s2 -> is_Some (k1 s1) -> is_Some (k2 s2)) ->
      is_Some (b1 st1 k1) -> is_Some (b2 st2 k2)) ->
  forall fuel lo hi st1 st2 k1 k2,
    pos st1 = pos st2 ->
    (forall s1 s2, pos s1 = pos s2 -> is_Some (k1 s1) -> is_Some (k2 s2)) ->
    is_Some (rep_loop fuel b1 lo hi st1 k1) -> is_Some (rep_loop fuel b2 lo hi st2 k2).
Proof.
  intros Hb. induction fuel as [|fuel IH]; intros lo hi st1 st2 k1 k2 Hpos Hk;
    cbn [rep_loop].
  - destruct lo; [apply Hk; assumption | intros [? ?]; discriminate].
  - assert (Hstop : is_Some (match lo with O => k1 st1 | S _ => None end) ->
                    is_Some (match lo with O => k2 st2 | S _ => None end))
      by (destruct lo; [apply Hk; assumption | intros [? ?]; discriminate]).
    destruct hi as [[|h]|]; [exact Hstop | |];
      (intros H;
       match goal with
       | H : is_Some (match b1 st1 ?K1 with _ => _ end)
         |- is_Some (match b2 st2 ?K2 with _ => _ end) =>
           assert (Hbody : is_Some (b1 st1 K1) -> is_Some (b2 st2 K2))
       end;
       [ apply Hb; [assumption|]; intros s1 s2 Hs; rewrite Hpos, Hs;
         destruct (pos st2 <? pos s2); [apply IH; assumption | intros [? ?]; discriminate]
       | destruct (b1 st1 _) as [y|];
         [ destruct Hbody as [z ->]; eauto
         | destruct (b2 st2 _); [eauto | apply Hstop; exact H] ] ]).
Qed.

Lemma exec_alike (r1 r2 : regex) :
  alike r1 r2 ->
  forall st1 st2 k1 k2,
    pos st1 = pos st2 ->
    (forall s1 s2, pos s1 = pos s2 -> is_Some (k1 s1) -> is_Some (k2 s2)) ->
    is_Some (exec fl t r1 st1 k1) -> is_Some (exec fl t r2 st2 k2).
Proof.
  induction 1 as [| c | p | | r1 r2 r1' r2' _ IH1 _ IH2 | r1 r2 r1' r2' _ IH1 _ IH2
                  | lo hi r r' _ IH | n n' r r' _ IH | | |];
    intros st1 st2 k1 k2 Hpos Hk; cbn [exec]; rewrite ?Hpos.
  - apply Hk. assumption.
  - destruct (nth_error t (pos st2)); [|auto].
    destruct (char_eq _ _ _); [|auto]. apply Hk. simpl. lia.
  - destruct (nth_error t (pos st2)); [|auto].
    destruct (p _); [|auto]. apply Hk. simpl. lia.
  - destruct (nth_error t (pos st2)); [|auto].
    destruct (Ascii.eqb _ _); [auto|]. apply Hk. simpl. lia.
  - apply IH1; [assumption|]. intros s1 s2 Hs. apply IH2; assumption.
  - intros H. destruct (exec fl t r1 st1 k1) eqn:E1.
    + assert (H1 : is_Some (exec fl t r1' st2 k2))
        by (apply (IH1 st1 st2 k1 k2 Hpos Hk); rewrite E1; eauto).
      destruct H1 as [z ->]. eauto.
    + destruct (exec fl t r1' st2 k2); [eauto|].
      apply (IH2 st1 st2 k1 k2 Hpos Hk H).
  - apply rep_loop_alike; assumption.
  - apply IH; [assumption|]. intros s1 s2 Hs. apply Hk. simpl. assumption.
  - destruct (at_bol _ _ _); [apply Hk; assumption | auto].
  - destruct (at_eol _ _ _); [apply Hk; assumption | auto].
  - destruct (at_wb _ _); [apply Hk; assumption | auto].
Qed.

Lemma exec_Cat (r1 r2 : regex) (st : mstate) (k : cont) :
  exec fl t (Cat r1 r2) st k = exec fl t r1 st (fun st' => exec fl t r2 st' k).
Proof. reflexivity. Qed.

Lemma exec_Rep (lo : nat) (hi : option nat) (r : regex) (st : mstate) (k : cont) :
  exec fl t (Rep lo hi r) st k
  = rep_loop (S (List.length t)) (exec fl t r) lo hi st k.
Proof. reflexivity. Qed.

Lemma rep_loop_none_left (fuel : nat) (body : mstate -> cont -> option mstate)
    (lo : nat) (st : mstate) (k : cont) :
  rep_loop fuel body lo (Some 0) st k = match lo with O => k st | S _ => None end.
Proof. destruct fuel; reflexivity. Qed.

End Steps.

(** The characters that equal a punctuation mark or a letter when case is
    ignored. *)
Lemma is_colon (a : ascii) :
  char_eq TierA.IM a ":" = true -> a = ":"%char.
Proof. destruct a as [[] [] [] [] [] [] [] []]; try discriminate; reflexivity. Qed.

Lemma is_dash (a : ascii) :
  char_eq TierA.IM a "-" = true -> a = "-"%char.
Proof. destruct a as [[] [] [] [] [] [] [] []]; try discriminate; reflexivity. Qed.

Lemma is_blank (a : ascii) :
  char_eq TierA.IM a " " = true -> a = " "%char.
Proof. destruct a as [[] [] [] [] [] [] [] []]; try discriminate; reflexivity. Qed.

Lemma is_letter_o (a : ascii) :
  char_eq TierA.IM a "O" = true -> a = "O"%char \/ a = "o"%char.
Proof. destruct a as [[] [] [] [] [] [] [] []]; try discriminate; auto. Qed.

End ReMore.

(** ** More on the reports of [iter1.py] and [final ig.py] *)

Module TierAMore.
Import Re ReMoreSpec TierA TierASpec TierAMoreSpec ReFacts TierAFacts.

Lemma add_rows_swap (order : list string) (d1 d2 : gmap string string)
    (table : list row) :
  add_rows order d2 d1 (List.map swap_row table)
  = List.map swap_row (add_rows order d1 d2 table).
Proof.
  revert table. induction order as [|a order IH]; intros table; [reflexivity|].
  cbn [add_rows]. cbv zeta. rewrite andb_comm.
  destruct (_ && _); [apply IH|].
  rewrite <- IH, List.map_app. reflexivity.
Qed.

(** X9. Exchanging the two inputs exchanges the two value columns and
    nothing else: the same aspects get a row, in the same order, in the
    table of either script. *)
Theorem report_swaps_with_inputs (s1 s2 : string) (label : option Z)
    (aspect_order : option (list string)) (pair_num : Z) :
  tables (log (Iter1.compare_strings s2 s1 label aspect_order))
  = List.map (List.map swap_row)
      (tables (log (Iter1.compare_strings s1 s2 label aspect_order)))
  /\ tables (log (FinalIg.compare_strings s2 s1 pair_num))
     = List.map (List.map swap_row)
         (tables (log (FinalIg.compare_strings s1 s2 pair_num))).
Proof.
  rewrite !tables_iter1, !tables_final_ig. cbn [List.map].
  rewrite <- !add_rows_swap. split; reflexivity.
Qed.

Lemma extract_details_fields (text a : string) :
  is_Some (value (extract_details text) !! a) -> In a table_fields.
Proof.
  intros [v Hv]. apply extract_fields_value_inv in Hv.
  destruct Hv as [Hv | (rules & r & m & Hin & _)].
  - rewrite lookup_empty in Hv. discriminate.
  - apply (in_map fst) in Hin. exact Hin.
Qed.

(** X10. A report has rows only for aspects that are both in the order
    asked for and among the nine fields of the rule table: an aspect
    without rules, such as the Brand of the order of pair 4, never gets
    a row, whatever the two texts. *)
Theorem no_row_without_rules (order : list string) (s1 s2 : string)
    (a v1 v2 : string) :
  In (a, v1, v2)
     (add_rows order (value (extract_details s1)) (value (extract_details s2)) []) ->
  In a order /\ In a table_fields /\ a <> "Brand".
Proof.
  intros Hin.
  rewrite add_rows_report in Hin by (intros b; apply extract_details_not_sentinel).
  unfold report_rows in Hin. apply list_elem_of_In in Hin.
  apply list_elem_of_fmap in Hin. destruct Hin as (b & Heq & Hb).
  inversion Heq; subst b. apply list_elem_of_filter in Hb. destruct Hb as [Hp Hb].
  assert (Hf : In a table_fields)
    by (destruct Hp as [Hp | Hp]; eapply extract_details_fields; exact Hp).
  split; [apply list_elem_of_In; assumption|]. split; [assumption|].
  intros ->. revert Hf. unfold table_fields. simpl. intuition discriminate.
Qed.

Lemma no_row_without_rules_witness :
  let rows := add_rows ["Brand"; "Grade"] (value (extract_details "OPC53"))
                (value (extract_details "TMT FE_500D")) [] in
  In ("Grade", "Inline: " ++ PyStr.dq ++ "53" ++ PyStr.dq,
      "Inline: " ++ PyStr.dq ++ "FE_500D" ++ PyStr.dq) rows
  /\ In "Grade" ["Brand"; "Grade"] /\ In "Grade" table_fields /\ "Grade" <> "Brand".
Proof.
  intros rows.
  assert (Hin : In ("Grade", "Inline: " ++ PyStr.dq ++ "53" ++ PyStr.dq,
                    "Inline: " ++ PyStr.dq ++ "FE_500D" ++ PyStr.dq) rows)
    by (vm_compute; left; reflexivity).
  split; [exact Hin|].
  exact (no_row_without_rules ["Brand"; "Grade"] "OPC53" "TMT FE_500D" _ _ _ Hin).
Defined.

(** *** The catch-all rule of Structure *)

Lemma rep_loop_total (fuel : nat) (body : mstate -> cont -> option mstate)
    (hi : option nat) (st : mstate) (k : cont) :
  (forall st', is_Some (k st')) -> is_Some (rep_loop fuel body 0 hi st k).
Proof.
  intros Hk. destruct fuel as [|fuel]; cbn [rep_loop]; [apply Hk|].
  destruct hi as [[|h]|]; [apply Hk | |];
    (destruct (body st _); [eauto | apply Hk]).
Qed.

Lemma any_run_matches (text : string) : is_Some (search IM (star Dot) text).
Proof.
  apply search_is_Some. exists 0. split; [lia|].
  unfold match_at, star. cbn [exec]. apply rep_loop_total. eauto.
Qed.

Lemma Structure_in_table : In ("Structure", rules_of "Structure") FIELD_RULES.
Proof. do 7 right. left. reflexivity. Qed.

(** X11. Every text gets a Structure: the last rule of the field matches
    anything, so the record always has a value under Structure and a
    report whose order lists Structure always has that row. *)
Theorem structure_always_extracted (text : string) (order : list string)
    (other : string) :
  is_Some (value (extract_details text) !! "Structure")
  /\ (In "Structure" order ->
      exists v1 v2,
        In ("Structure", v1, v2)
           (add_rows order (value (extract_details text))
              (value (extract_details other)) [])).
Proof.
  assert (Hs : is_Some (value (extract_details text) !! "Structure")).
  { pose proof (extract_fields_spec text "Structure" (rules_of "Structure")
                  FIELD_RULES ∅ FIELD_RULES_keys_distinct Structure_in_table) as H.
    cbv zeta in H. fold (extract_details_in FIELD_RULES text) in H.
    fold (extract_details text) in H.
    destruct (first_matching text (rules_of "Structure")) as [[j r]|] eqn:Hf.
    - destruct H as [[m [_ Hv]] _]. rewrite Hv. eauto.
    - exfalso. unfold first_matching in Hf. apply list_find_None in Hf.
      rewrite List.Forall_forall in Hf.
      apply (Hf {| pattern := star Dot; formatter := const "Unstructured free text" |}).
      + cbv [rules_of FIELD_RULES List.find fst].
        cbn [String.eqb Ascii.eqb Bool.eqb]. do 5 right. left. reflexivity.
      + apply any_run_matches. }
  split; [exact Hs|]. intros Hin.
  rewrite add_rows_report by (intros b; apply extract_details_not_sentinel).
  eexists _, _. apply list_elem_of_In. unfold report_rows.
  apply list_elem_of_fmap. exists "Structure". split; [reflexivity|].
  apply list_elem_of_filter. split; [left; exact Hs | apply list_elem_of_In; exact Hin].
Qed.

(** *** Rules that an earlier rule of their field shadows *)

(** The keyed pattern [KEY\s*[:-]?\s*([^;]+)] matches wherever the bare
    [KEY:-([^;]+)] does: it takes the colon as its optional mark and the
    hyphen as the first character of the value. *)
Lemma keyed_shadows_bare (key text : string) (n1 n2 : nat) :
  is_Some (search IM (cat [lit (key ++ ":-"); Grp n2 (plus (none_of ";"))]) text) ->
  is_Some (search IM (cat [keyed key; Grp n1 (plus (none_of ";"))]) text).
Proof.
  rewrite !search_is_Some. intros (i & Hle & Hm). exists i. split; [assumption|].
  set (t := list_ascii_of_string text) in *.
  unfold match_at in *. cbn [cat] in Hm.
  rewrite ReMore.exec_Cat, ReMore.exec_lit in Hm.
  destruct (has_at IM t _ (key ++ ":-")) eqn:Hh; [|destruct Hm; discriminate].
  clear Hm. cbn [pos] in Hh.
  rewrite ReMore.has_at_app in Hh. apply andb_true_iff in Hh. destruct Hh as [Hkey Hcd].
  cbn [has_at] in Hcd.
  destruct (nth_error t (i + String.length key)) as [a1|] eqn:H1; [|discriminate].
  destruct (nth_error t (S (i + String.length key))) as [a2|] eqn:H2;
    [|rewrite andb_false_r in Hcd; discriminate].
  apply andb_true_iff in Hcd. destruct Hcd as [Hc1 Hc2].
  rewrite andb_true_r in Hc2.
  apply ReMore.is_colon in Hc1. apply ReMore.is_dash in Hc2. subst a1 a2.
  unfold keyed, Re.s, one_of, none_of. cbn [cat].
  rewrite !ReMore.exec_Cat, ReMore.exec_lit. cbn [pos]. rewrite Hkey. cbv beta.
  rewrite ReMore.exec_Cat. unfold star at 1. rewrite ReMore.exec_Rep.
  rewrite ReMore.rep_cls_stop by (cbn [pos advance]; rewrite H1; reflexivity).
  rewrite ReMore.exec_Cat. unfold opt. rewrite ReMore.exec_Rep.
  eapply ReMore.rep_cls_more;
    [cbn [pos advance]; exact H1 | reflexivity | discriminate |].
  cbn [option_map Nat.pred]. rewrite ReMore.rep_loop_none_left.
  unfold star. rewrite ReMore.exec_Rep.
  rewrite ReMore.rep_cls_stop
    by (cbn [pos advance];
        replace (i + String.length key + 1) with (S (i + String.length key)) by lia;
        rewrite H2; reflexivity).
  rewrite exec_Grp. unfold plus. rewrite ReMore.exec_Rep.
  eapply ReMore.rep_cls_more;
    [ cbn [pos advance];
      replace (i + String.length key + 1) with (S (i + String.length key)) by lia;
      exact H2
    | reflexivity | discriminate |].
  cbn [option_map Nat.pred]. apply rep_loop_total. eauto.
Qed.

(** The keyed pattern of a key matches wherever the keyed pattern of the
    key followed by [ O...] does: it takes the space and starts the value
    at the letter. *)
Lemma keyed_shadows_longer (key rest text : string) (n1 n2 : nat) :
  is_Some (search IM (cat [keyed (key ++ " O" ++ rest);
                           Grp n2 (plus (none_of ";"))]) text) ->
  is_Some (search IM (cat [keyed key; Grp n1 (plus (none_of ";"))]) text).
Proof.
  rewrite !search_is_Some. intros (i & Hle & Hm). exists i. split; [assumption|].
  set (t := list_ascii_of_string text) in *.
  unfold match_at in *. unfold keyed in Hm. cbn [cat] in Hm.
  rewrite !ReMore.exec_Cat, ReMore.exec_lit in Hm.
  destruct (has_at IM t _ (key ++ " O" ++ rest)) eqn:Hh; [|destruct Hm; discriminate].
  clear Hm. cbn [pos] in Hh.
  rewrite ReMore.has_at_app in Hh. apply andb_true_iff in Hh. destruct Hh as [Hkey Hcd].
  change (" O" ++ rest) with (String " " (String "O" rest)) in Hcd.
  cbn [has_at] in Hcd.
  destruct (nth_error t (i + String.length key)) as [a1|] eqn:H1; [|discriminate].
  apply andb_true_iff in Hcd. destruct Hcd as [Hc1 Hcd].
  destruct (nth_error t (S (i + String.length key))) as [a2|] eqn:H2; [|discriminate].
  apply andb_true_iff in Hcd. destruct Hcd as [Hc2 _].
  apply ReMore.is_blank in Hc1. subst a1.
  assert (Ha2 : PyStr.is_space a2 = false
                /\ existsb (Ascii.eqb a2) (list_ascii_of_string ":-") = false
                /\ negb (existsb (Ascii.eqb a2) (list_ascii_of_string ";")) = true)
    by (apply ReMore.is_letter_o in Hc2; destruct Hc2; subst a2; repeat split).
  destruct Ha2 as (Hsp & Hmark & Hval).
  assert (H2' : nth_error t (i + String.length key + 1) = Some a2)
    by (replace (i + String.length key + 1) with (S (i + String.length key)) by lia;
        exact H2).
  unfold keyed, Re.s, one_of, none_of. cbn [cat].
  rewrite !ReMore.exec_Cat, ReMore.exec_lit. cbn [pos]. rewrite Hkey. cbv beta.
  rewrite ReMore.exec_Cat. unfold star at 1. rewrite ReMore.exec_Rep.
  eapply ReMore.rep_cls_more;
    [cbn [pos advance]; exact H1 | reflexivity | discriminate |].
  cbn [option_map Nat.pred].
  rewrite ReMore.rep_cls_stop by (cbn [pos advance]; rewrite H2'; exact Hsp).
  rewrite ReMore.exec_Cat. unfold opt. rewrite ReMore.exec_Rep.
  rewrite ReMore.rep_cls_stop by (cbn [pos advance]; rewrite H2'; exact Hmark).
  unfold star. rewrite ReMore.exec_Rep.
  rewrite ReMore.rep_cls_stop by (cbn [pos advance]; rewrite H2'; exact Hsp).
  rewrite exec_Grp. unfold plus. rewrite ReMore.exec_Rep.
  eapply ReMore.rep_cls_more;
    [cbn [pos advance]; exact H2' | exact Hval | discriminate |].
  cbn [option_map Nat.pred]. apply rep_loop_total. eauto.
Qed.

(** A pattern that ends in another pattern, up to the numbers of the
    groups, is found only in texts in which the other one is found. *)
Lemma suffix_pattern_found (front r2 r1 : regex) (text : string) :
  alike r2 r1 ->
  is_Some (search IM (Cat front r2) text) ->
  is_Some (search IM r1 text).
Proof.
  intros Hal. rewrite !search_is_Some. intros (i & Hle & [x Hx]).
  set (t := list_ascii_of_string text) in *.
  unfold match_at in Hx. rewrite ReMore.exec_Cat in Hx.
  rewrite exec_within in Hx by exact Hle.
  apply ReMore.exec_from_cont in Hx. destruct Hx as [st' Hx].
  unfold within in Hx.
  destruct (pos st' <=? List.length t) eqn:Hb; [|discriminate].
  apply Nat.leb_le in Hb.
  exists (pos st'). split; [assumption|].
  unfold match_at.
  apply (ReMore.exec_alike IM t r2 r1 Hal st' {| pos := pos st'; spans := [] |} Some Some);
    [reflexivity | eauto | rewrite Hx; eauto].
Qed.

Ltac expose_rules :=
  cbv [rules_of FIELD_RULES List.find fst];
  cbn [String.eqb Ascii.eqb Bool.eqb].

(** The rule at [j] is never the first to match when an earlier rule at
    [i] matches wherever it does. *)
Lemma shadowed_never_first (text : string) (rules : list rule) (i j : nat)
    (ri rj : rule) :
  rules !! i = Some ri -> rules !! j = Some rj -> i < j ->
  (rule_matches text rj -> rule_matches text ri) ->
  forall r, first_matching text rules <> Some (j, r).
Proof.
  intros Hi Hj Hlt Hsh r Hf. unfold first_matching in Hf.
  apply list_find_Some in Hf. destruct Hf as (Hr & Hm & Hno).
  rewrite Hj in Hr. inversion Hr; subst r.
  apply (Hno i ri Hi Hlt). apply Hsh. exact Hm.
Qed.

(** X12. The second rules of Form and of Type, [FORM:-([^;]+)] and
    [TYPE:-([^;]+)], never decide their field: wherever one matches, the
    first rule of the field matches too and comes first. *)
Theorem bare_key_rules_shadowed (text : string) :
  (forall r, first_matching text (rules_of "Form") <> Some (1, r))
  /\ (forall r, first_matching text (rules_of "Type") <> Some (1, r)).
Proof.
  split.
  - eapply shadowed_never_first with (i := 0);
      [expose_rules; reflexivity | expose_rules; reflexivity | lia |].
    unfold rule_matches. cbn [pattern].
    apply (keyed_shadows_bare "FORM" text 1 1).
  - eapply shadowed_never_first with (i := 0);
      [expose_rules; reflexivity | expose_rules; reflexivity | lia |].
    unfold rule_matches. cbn [pattern].
    apply (keyed_shadows_bare "TYPE" text 1 1).
Qed.

Lemma Type_in_table : In ("Type", rules_of "Type") FIELD_RULES.
Proof. do 3 right. left. reflexivity. Qed.

(** X13. The third rule of Type, for [TYPE OF STRAND], never decides the
    field either: the first rule matches wherever it does, taking
    [OF STRAND ...] for the value.  So no Type value begins with
    [TYPE OF STRAND]. *)
Theorem type_of_strand_rule_shadowed (text v : string) :
  (forall r, first_matching text (rules_of "Type") <> Some (2, r))
  /\ (value (extract_details text) !! "Type" = Some v ->
      PyStr.starts_with "TYPE OF STRAND" v = false).
Proof.
  assert (Hsh : forall r, first_matching text (rules_of "Type") <> Some (2, r)).
  { eapply shadowed_never_first with (i := 0);
      [expose_rules; reflexivity | expose_rules; reflexivity | lia |].
    unfold rule_matches. cbn [pattern].
    apply (keyed_shadows_longer "TYPE" "F STRAND" text 1 1). }
  split; [exact Hsh|].
  pose proof (extract_fields_spec text "Type" (rules_of "Type") FIELD_RULES ∅
                FIELD_RULES_keys_distinct Type_in_table) as H.
  cbv zeta in H. fold (extract_details_in FIELD_RULES text) in H.
  fold (extract_details text) in H.
  revert H Hsh. unfold first_matching. expose_rules. cbn [list_find].
  repeat match goal with
         | |- context [decide (rule_matches text ?r)] =>
             destruct (decide (rule_matches text r)) as [?Hyes | ?Hno]
         end;
    cbn [fmap option_fmap option_map prod_map fst snd id];
    intros H Hsh Hv;
    try (destruct H as [[m [_ Hm]] _]; rewrite Hm in Hv;
         inversion Hv; subst v; reflexivity).
  - exfalso. eapply Hsh. reflexivity.
  - destruct H as [Hn _]. rewrite Hn, lookup_empty in Hv. discriminate.
Qed.

Lemma type_of_strand_rule_shadowed_witness :
  let text := "HT STEEL STRAND; TYPE OF STRAND :- 7 ply;" in
  value (extract_details text) !! "Type" = Some "TYPE :- OF STRAND :- 7 ply"
  /\ PyStr.starts_with "TYPE OF STRAND" "TYPE :- OF STRAND :- 7 ply" = false.
Proof.
  intros text.
  assert (Hv : value (extract_details text) !! "Type"
               = Some "TYPE :- OF STRAND :- 7 ply") by (vm_compute; reflexivity).
  split; [exact Hv|].
  exact (proj2 (type_of_strand_rule_shadowed text _) Hv).
Defined.

(** X14. The second rule of Length, a number written three times and
    then [Length: x.y M], never decides the field: its pattern ends in the
    pattern of the first rule, which therefore matches first. *)
Theorem repeated_length_rule_shadowed (text : string) :
  forall r, first_matching text (rules_of "Length") <> Some (1, r).
Proof.
  eapply shadowed_never_first with (i := 0);
    [expose_rules; reflexivity | expose_rules; reflexivity | lia |].
  unfold rule_matches. cbn [pattern]. cbn [cat]. intros H.
  match type of H with
  | is_Some (search IM (Cat ?front ?rest) text) =>
      assert (H' : is_Some (search IM rest text))
        by (apply (suffix_pattern_found front rest rest text);
            [cbv [cat lit star plus decimal Re.s Re.d]; repeat constructor
            | exact H])
  end.
  match type of H' with
  | is_Some (search IM (Cat ?front ?rest) text) =>
      apply (suffix_pattern_found front rest _ text); [|exact H']
  end.
  cbv [cat lit star plus decimal Re.s Re.d]. repeat constructor.
Qed.

End TierAMore.

(** ** The session of [iter1.py] *)

Module SessionFacts.
Import PyStr TierA TierASpec TierAFacts Iter1Main SessionSpec.

Lemma console_tables_app (l1 l2 : list console) :
  console_tables (app l1 l2) = app (console_tables l1) (console_tables l2).
Proof.
  induction l1 as [|[[f i | line | rows] | prompt] l1 IH]; simpl;
    rewrite ?IH; reflexivity.
Qed.

Lemma console_lines_app (l1 l2 : list console) :
  console_lines (app l1 l2) = app (console_lines l1) (console_lines l2).
Proof.
  induction l1 as [|[[f i | line | rows] | prompt] l1 IH]; simpl;
    rewrite ?IH; reflexivity.
Qed.

Lemma console_tables_lift (l : list event) :
  console_tables (List.map Out l) = tables l.
Proof.
  induction l as [|[f i | line | rows] l IH]; simpl; rewrite ?IH; reflexivity.
Qed.

Lemma pair_induction {A : Type} (P : list A -> Prop) :
  P [] -> (forall x, P [x]) -> (forall x y l, P l -> P (x :: y :: l)) ->
  forall l, P l.
Proof.
  intros H0 H1 H2.
  assert (H : forall l, P l /\ forall x, P (x :: l)).
  { induction l as [|y l [IH IH']]; split; auto. }
  intros l. apply H.
Qed.

(** The table of one comparison of the session. *)
Lemma console_tables_compare (s1 s2 : string) (k : Z) :
  console_tables (log (lift (Iter1.compare_strings s1 s2 (Some k)
                               (Some Iter1.GENERIC_ASPECT_ORDER))))
  = [report_rows Iter1.GENERIC_ASPECT_ORDER
       (value (extract_details s1)) (value (extract_details s2))].
Proof.
  unfold lift, log at 1. cbn [fst].
  rewrite console_tables_lift, tables_iter1. cbn [default].
  rewrite add_rows_report by (intros a; apply extract_details_not_sentinel).
  reflexivity.
Qed.

Lemma loop_tables (stdin : list string) :
  forall k,
    console_tables (log (loop stdin k))
    = List.map (fun p => report_rows Iter1.GENERIC_ASPECT_ORDER
                           (value (extract_details (fst p)))
                           (value (extract_details (snd p))))
        (pairs_entered stdin).
Proof.
  induction stdin as [| line1 | line1 line2 rest IH] using pair_induction; intros k.
  - reflexivity.
  - cbn [loop pairs_entered]. destruct (is_exit (strip line1)); reflexivity.
  - cbn [loop pairs_entered]. cbv zeta.
    destruct (is_exit (strip line1)); [reflexivity|].
    destruct (is_exit (strip line2)); [reflexivity|].
    cbn [orb List.map fst snd].
    repeat (rewrite log_bind, console_tables_app; cbv beta).
    rewrite console_tables_compare, IH. reflexivity.
Qed.

(** X15. A session compares exactly the pairs of lines entered before
    the first line that says [exit]: it prints one table for each, in
    their order, built from the two lines stripped of surrounding white
    space with the generic aspect order. *)
Theorem session_compares_pairs (stdin : list string) :
  console_tables (log (main stdin))
  = List.map (fun p => report_rows Iter1.GENERIC_ASPECT_ORDER
                         (value (extract_details (fst p)))
                         (value (extract_details (snd p))))
      (pairs_entered stdin).
Proof.
  unfold main.
  repeat (rewrite log_bind, console_tables_app; cbv beta).
  rewrite loop_tables.
  destruct (value (loop stdin 1)).
  - rewrite log_bind, console_tables_app. unfold print. rewrite !log_emit, log_ret.
    cbn [console_tables app]. rewrite app_nil_r. reflexivity.
  - unfold print. rewrite !log_emit, log_ret.
    cbn [console_tables app]. rewrite app_nil_r. reflexivity.
Qed.

Lemma loop_ending (stdin : list string) :
  forall k, value (loop stdin k) = if meets_exit stdin then Finished else EOFError.
Proof.
  induction stdin as [| line1 | line1 line2 rest IH] using pair_induction; intros k.
  - reflexivity.
  - cbn [loop meets_exit]. destruct (is_exit (strip line1)); reflexivity.
  - cbn [loop meets_exit]. cbv zeta.
    destruct (is_exit (strip line1)); [reflexivity|].
    destruct (is_exit (strip line2)); [reflexivity|].
    cbn [orb]. repeat (rewrite value_bind; cbv beta). apply IH.
Qed.

Lemma console_lines_searches (text : string) :
  console_lines (List.map Out (log (extract_details text))) = [].
Proof.
  unfold extract_details, extract_details_in.
  generalize (∅ : gmap string string). generalize FIELD_RULES.
  induction l as [|[f rules] table IH]; intros result; [reflexivity|].
  cbn [extract_fields]. rewrite log_bind, List.map_app, console_lines_app, IH, app_nil_r.
  pose proof (apply_rules_spec text f rules 0 result) as H. cbv zeta in H.
  destruct (first_matching text rules) as [[j r]|]; destruct H as [_ ->].
  - generalize (seq 0 (S j)). intros l'. induction l'; cbn [List.map console_lines]; auto.
  - generalize (seq 0 (List.length rules)). intros l'.
    induction l'; cbn [List.map console_lines]; auto.
Qed.

(** The lines one comparison of the session prints. *)
Lemma console_lines_compare (s1 s2 : string) (k : Z) :
  console_lines (log (lift (Iter1.compare_strings s1 s2 (Some k)
                              (Some Iter1.GENERIC_ASPECT_ORDER))))
  = [if Z.eqb k 0 then Iter1.check_mark ++ " User Input Comparison" else pair_header k;
     "String 1: " ++ s1; "String 2: " ++ s2 ++ nl; nl ++ "---" ++ nl].
Proof.
  unfold lift, log at 1. cbn [fst]. unfold Iter1.compare_strings.
  repeat (rewrite log_bind; cbv beta).
  rewrite !List.map_app, !console_lines_app, !console_lines_searches.
  rewrite !log_emit. cbn [app List.map console_lines].
  destruct (Z.eqb k 0); rewrite log_emit; reflexivity.
Qed.

Lemma first_char_differs (a b : ascii) (s1 s2 : string) :
  a <> b -> String a s1 <> String b s2.
Proof. intros H E. inversion E. contradiction. Qed.

Lemma farewell_not_in_compare (s1 s2 : string) (k : Z) :
  ~ In farewell
       (console_lines (log (lift (Iter1.compare_strings s1 s2 (Some k)
                                    (Some Iter1.GENERIC_ASPECT_ORDER))))).
Proof.
  rewrite console_lines_compare. unfold farewell.
  intros [H | [H | [H | [H | []]]]]; revert H.
  - destruct (Z.eqb k 0); apply first_char_differs; discriminate.
  - apply first_char_differs. discriminate.
  - apply first_char_differs. discriminate.
  - apply first_char_differs. discriminate.
Qed.

Lemma banner_not_farewell (k : Z) : banner k <> farewell.
Proof. unfold banner, farewell. apply first_char_differs. discriminate. Qed.

Lemma loop_no_farewell (stdin : list string) :
  forall k, ~ In farewell (console_lines (log (loop stdin k))).
Proof.
  assert (Hstart : forall k (c : W console ending),
             ~ In farewell (console_lines (log c)) ->
             ~ In farewell
                 (console_lines
                    (log (print (banner k);; emit (Ask "Enter String 1: ");; c)))).
  { intros k c Hc. unfold print.
    repeat (rewrite log_bind, console_lines_app; cbv beta).
    rewrite !log_emit. cbn [console_lines app].
    intros [H | H]; [exact (banner_not_farewell k H) | exact (Hc H)]. }
  assert (Hnone : forall e : ending,
             ~ In farewell (console_lines (log (mret e : W console ending))))
    by (intros e H; exact H).
  induction stdin as [| line1 | line1 line2 rest IH] using pair_induction; intros k.
  - apply (Hstart k). apply Hnone.
  - cbn [loop]. apply (Hstart k). cbv zeta.
    destruct (is_exit (strip line1)); [apply Hnone|].
    rewrite log_bind, console_lines_app, log_emit. cbn [console_lines app].
    apply Hnone.
  - cbn [loop]. apply (Hstart k). cbv zeta.
    destruct (is_exit (strip line1)); [apply Hnone|].
    rewrite log_bind, console_lines_app, log_emit. cbn [console_lines app].
    destruct (is_exit (strip line2)); [apply Hnone|].
    rewrite log_bind, console_lines_app. intros H.
    apply in_app_or in H. destruct H as [H | H].
    + exact (farewell_not_in_compare _ _ _ H).
    + exact (IH _ H).
Qed.

(** X16. A session ends past its last line, the farewell printed, exactly
    when it reads [exit], in any letter case and with any white space
    around it, at one of its prompts; when the lines run out first, the
    [EOFError] of [input] ends it and no farewell is printed. *)
Theorem session_ends_on_exit (stdin : list string) :
  (value (main stdin) = Finished <-> meets_exit stdin = true)
  /\ (value (main stdin) = EOFError <-> meets_exit stdin = false)
  /\ (In farewell (console_lines (log (main stdin))) <-> meets_exit stdin = true).
Proof.
  assert (Hv : value (main stdin) = if meets_exit stdin then Finished else EOFError).
  { unfold main. repeat (rewrite value_bind; cbv beta).
    rewrite loop_ending. destruct (meets_exit stdin); reflexivity. }
  split; [|split].
  - rewrite Hv. destruct (meets_exit stdin); split; congruence.
  - rewrite Hv. destruct (meets_exit stdin); split; congruence.
  - unfold main, print.
    repeat (rewrite log_bind, console_lines_app; cbv beta).
    rewrite !log_emit. cbn [console_lines app].
    rewrite loop_ending. split.
    + intros H. destruct (meets_exit stdin); [reflexivity|]. exfalso.
      destruct H as [H | [H | H]].
      * revert H. apply first_char_differs. discriminate.
      * revert H. apply first_char_differs. discriminate.
      * rewrite log_ret, app_nil_r in H. exact (loop_no_farewell _ _ H).
    + intros ->. right. right. apply in_or_app. right.
      rewrite log_bind, log_emit. left. reflexivity.
Qed.

Lemma starts_with_app (p r : string) : starts_with p (p ++ r) = true.
Proof.
  induction p as [|c p IH]; [reflexivity|].
  change (String c p ++ r) with (String c (p ++ r)). cbn [starts_with].
  rewrite Ascii.eqb_refl, IH. reflexivity.
Qed.

Lemma starting_with_app (prefix : string) (l1 l2 : list string) :
  starting_with prefix (app l1 l2)
  = app (starting_with prefix l1) (starting_with prefix l2).
Proof. unfold starting_with. apply List.filter_app. Qed.

Lemma loop_headers (stdin : list string) :
  forall k, (0 < k)%Z ->
    starting_with Iter1.check_mark (console_lines (log (loop stdin k)))
    = List.map pair_header (counts_from k (List.length (pairs_entered stdin))).
Proof.
  assert (Hstart : forall k (c : W console ending),
             starting_with Iter1.check_mark
               (console_lines
                  (log (print (banner k);; emit (Ask "Enter String 1: ");; c)))
             = starting_with Iter1.check_mark (console_lines (log c))).
  { intros k c. unfold print.
    repeat (rewrite log_bind, console_lines_app; cbv beta).
    rewrite !log_emit. cbn [console_lines app]. reflexivity. }
  induction stdin as [| line1 | line1 line2 rest IH] using pair_induction;
    intros k Hk.
  - apply (Hstart k).
  - cbn [loop pairs_entered]. rewrite (Hstart k). cbv zeta.
    destruct (is_exit (strip line1)); reflexivity.
  - cbn [loop pairs_entered]. rewrite (Hstart k). cbv zeta.
    destruct (is_exit (strip line1)); [reflexivity|].
    rewrite log_bind, console_lines_app, log_emit. cbn [console_lines app].
    destruct (is_exit (strip line2)); [reflexivity|].
    cbn [orb List.length counts_from List.map].
    rewrite log_bind, console_lines_app, starting_with_app.
    rewrite console_lines_compare, IH by lia.
    assert (Hz : Z.eqb k 0 = false) by (apply Z.eqb_neq; lia).
    rewrite Hz. unfold starting_with at 1. cbn [List.filter].
    unfold pair_header at 1. rewrite starts_with_app. reflexivity.
Qed.

(** X17. The comparisons of a session are headed [Pair 1], [Pair 2], ...
    in their order: the count starts at one, so the header for a
    comparison without a number is never printed by a session. *)
Theorem session_numbers_pairs (stdin : list string) :
  starting_with Iter1.check_mark (console_lines (log (main stdin)))
  = List.map pair_header (counts_from 1 (List.length (pairs_entered stdin))).
Proof.
  unfold main, print.
  repeat (rewrite log_bind, console_lines_app, starting_with_app; cbv beta).
  rewrite !log_emit. cbn [console_lines].
  rewrite loop_headers by lia.
  destruct (value (loop stdin 1)).
  - rewrite log_bind, log_emit, log_ret. cbn [console_lines app].
    rewrite app_nil_r. reflexivity.
  - rewrite log_ret. cbn [console_lines]. rewrite app_nil_r. reflexivity.
Qed.

End SessionFacts.

(** ** Diameter and Length of [main.py] *)

Module DigitsFacts.
Import PyStr Re ReMoreSpec ReFacts ReMore Main.

Section Steps.
Variable fl : flags.
Variable t : list ascii.

(** Where a repetition of a class hands on: after one of its rounds, or,
    when it may make none, where it started. *)
Lemma rep_cls_post (p : ascii -> bool) (R : nat -> bool) :
  (forall q a, nth_error t q = Some a -> p a = true -> R (S q) = true) ->
  forall fuel lo hi st k x,
    1 <= lo \/ R (pos st) = true ->
    rep_loop fuel (exec fl t (Cls p)) lo hi st k = Some x ->
    exists st', R (pos st') = true /\ k st' = Some x.
Proof.
  intros Hstep. induction fuel as [|fuel IH]; intros lo hi st k x Hlo; cbn [rep_loop].
  - destruct lo; [|discriminate]. destruct Hlo as [Hlo | Hr]; [lia|]. eauto.
  - assert (Hstop : match lo with O => k st | S _ => None end = Some x ->
                    exists st', R (pos st') = true /\ k st' = Some x).
    { destruct lo; [|discriminate]. destruct Hlo as [Hlo | Hr]; [lia|]. eauto. }
    destruct hi as [[|h]|]; [exact Hstop | |];
      (rewrite exec_Cls;
       destruct (nth_error t (pos st)) as [a|] eqn:Ha; [|exact Hstop];
       destruct (p a) eqn:Hp; [|exact Hstop];
       destruct (pos st <? pos (advance 1 st)); [|exact Hstop];
       match goal with
       | |- context [rep_loop fuel ?b ?lo' ?hi' ?s' k] =>
           destruct (rep_loop fuel b lo' hi' s' k) as [y|] eqn:Hy; [|exact Hstop]
       end;
       intros [= ->]; apply IH in Hy; [exact Hy|];
       right; cbn [advance pos];
       replace (pos st + 1) with (S (pos st)) by lia;
       exact (Hstep _ _ Ha Hp)).
Qed.

(** An optional character: the rest follows at once, or after it. *)
Lemma opt_cls_post (p : ascii -> bool) (fuel : nat) (st : mstate) (k : cont)
    (x : mstate) :
  rep_loop (S fuel) (exec fl t (Cls p)) 0 (Some 1) st k = Some x ->
  k st = Some x
  \/ exists a, nth_error t (pos st) = Some a /\ p a = true
               /\ k (advance 1 st) = Some x.
Proof.
  cbn [rep_loop]. rewrite exec_Cls.
  destruct (nth_error t (pos st)) as [a|] eqn:Ha; [|auto].
  destruct (p a) eqn:Hp; [|auto].
  destruct (pos st <? pos (advance 1 st)); [|auto].
  cbn [option_map Nat.pred]. rewrite rep_loop_none_left.
  destruct (k (advance 1 st)) as [y|] eqn:Hy; [|auto].
  intros [= ->]. right. exists a. auto.
Qed.

End Steps.

(** The tail [\s?mm] starts at a white space or at the letter [m]. *)
Lemma tail_first_char (t : list ascii) (st : mstate) :
  is_Some (exec NOFLAGS t (Cat (opt s) (lit "mm")) st Some) ->
  exists a, nth_error t (pos st) = Some a
            /\ is_digit a = false /\ Ascii.eqb "." a = false.
Proof.
  intros [x Hx]. rewrite exec_Cat in Hx. unfold opt, Re.s in Hx.
  rewrite exec_Rep in Hx. apply opt_cls_post in Hx.
  destruct Hx as [Hx | (a & Ha & Hp & _)].
  - rewrite exec_lit in Hx.
    destruct (has_at NOFLAGS t (pos st) "mm") eqn:Hh; [|discriminate].
    cbn [has_at] in Hh.
    destruct (nth_error t (pos st)) as [a|]; [|discriminate].
    exists a. split; [reflexivity|].
    apply andb_true_iff in Hh. destruct Hh as [Hc _].
    unfold char_eq in Hc. cbn [ignorecase NOFLAGS] in Hc.
    apply Ascii.eqb_eq in Hc. subst a. split; reflexivity.
  - exists a. split; [assumption|]. revert Hp.
    destruct a as [[] [] [] [] [] [] [] []]; try discriminate; auto.
Qed.

(** Wherever the Length pattern matches, the Diameter pattern matches a
    little further on: from the last digit before the tail, or from the
    digit before a dot that ends the number. *)
Lemma length_pattern_within_diameter (text : string) (n : nat) :
  is_Some (search NOFLAGS
             (cat [Grp n (cat [range 4 5 d; opt (Lit "."); star d]); opt s; lit "mm"])
             text) ->
  is_Some (search NOFLAGS
             (cat [Grp n (cat [range 1 3 d; opt (Lit "."); star d]); opt s; lit "mm"])
             text).
Proof.
  rewrite !search_is_Some. intros (i & Hle & [x Hx]).
  set (t := list_ascii_of_string text) in *.
  unfold match_at in Hx. cbn [cat] in Hx.
  rewrite exec_Cat, exec_Grp, exec_Cat in Hx.
  unfold range, Re.d in Hx. rewrite exec_Rep in Hx.
  apply (rep_cls_post NOFLAGS t is_digit (prev_is is_digit t)) in Hx;
    [ | intros q a Ha Hp; cbn [prev_is]; rewrite Ha; exact Hp | left; lia ].
  destruct Hx as (st1 & Hr1 & Hx).
  rewrite exec_Cat in Hx. unfold opt in Hx.
  rewrite exec_Rep in Hx.
  change (exec NOFLAGS t (Lit "."))
    with (exec NOFLAGS t (Cls (fun a => char_eq NOFLAGS a "."))) in Hx.
  apply opt_cls_post in Hx.
  assert (Hst2 : exists st2, after_number t (pos st2) = true
                             /\ exec NOFLAGS t (star d) st2
                                  (fun st' => exec NOFLAGS t (Cat (opt s) (lit "mm"))
                                                (close_group n i st') Some)
                                = Some x).
  { destruct Hx as [Hx | (a & Ha & Hp & Hx)].
    - exists st1. split; [|exact Hx].
      unfold after_number. rewrite Hr1. reflexivity.
    - exists (advance 1 st1). split; [|exact Hx].
      unfold after_number. cbn [advance pos].
      replace (pos st1 + 1) with (S (pos st1)) by lia.
      cbn [prev_is Nat.pred]. rewrite Ha, Hr1.
      unfold char_eq in Hp. cbn [ignorecase NOFLAGS] in Hp.
      rewrite Ascii.eqb_sym, Hp. apply orb_true_r. }
  clear Hx Hr1 st1. destruct Hst2 as (st2 & Hr2 & Hx).
  unfold star, Re.d in Hx. rewrite exec_Rep in Hx.
  apply (rep_cls_post NOFLAGS t is_digit (after_number t)) in Hx;
    [ | intros q a Ha Hp; unfold after_number; cbn [prev_is]; rewrite Ha, Hp; reflexivity
      | right; exact Hr2 ].
  clear Hr2 st2. destruct Hx as (st3 & Hr3 & Hx).
  set (q := pos st3) in *.
  assert (Htail : is_Some (exec NOFLAGS t (Cat (opt s) (lit "mm"))
                             (close_group n i st3) Some)) by (rewrite Hx; eauto).
  destruct (tail_first_char t _ Htail) as (c & Hc & Hcd & Hcdot).
  change (pos (close_group n i st3)) with q in Hc.
  assert (Hq : q <= List.length t)
    by (apply Nat.lt_le_incl, nth_error_Some; congruence).
  (* the start of the Diameter match and the digit there *)
  assert (Hstart : exists j a, j <= List.length t /\ nth_error t j = Some a
             /\ is_digit a = true
             /\ (S j = q
                 \/ (S (S j) = q /\ nth_error t (S j) = Some "."%char))).
  { unfold after_number in Hr3. apply orb_true_iff in Hr3.
    destruct Hr3 as [Hd | Hdot].
    - destruct q as [|j]; [discriminate|]. cbn [prev_is] in Hd.
      destruct (nth_error t j) as [a|] eqn:Ha; [|discriminate].
      exists j, a. repeat split; auto. lia.
    - apply andb_true_iff in Hdot. destruct Hdot as [Hdot Hd].
      destruct q as [|[|j]]; try discriminate.
      cbn [prev_is Nat.pred] in Hdot, Hd.
      destruct (nth_error t (S j)) as [b|] eqn:Hb; [|discriminate].
      destruct (nth_error t j) as [a|] eqn:Ha; [|discriminate].
      apply Ascii.eqb_eq in Hdot. subst b.
      exists j, a. repeat split; auto. lia. }
  destruct Hstart as (j & a & Hj & Ha & Hda & Hcase).
  exists j. split; [exact Hj|].
  unfold match_at. cbn [cat].
  rewrite exec_Cat, exec_Grp, exec_Cat.
  unfold range, Re.d. rewrite exec_Rep.
  apply (rep_cls_more NOFLAGS t is_digit _ _ _ a); [cbn [pos]; exact Ha | exact Hda | discriminate |].
  cbn [option_map Nat.pred pos]. unfold advance at 1. cbn [pos spans].
  replace (j + 1) with (S j) by lia.
  destruct Hcase as [Hjq | [Hjq Hdot]].
  - (* the digit is the last character before the tail *)
    rewrite (rep_cls_stop NOFLAGS t) by (cbn [pos]; rewrite Hjq, Hc; exact Hcd).
    rewrite exec_Cat. unfold opt.
    rewrite exec_Rep.
    change (exec NOFLAGS t (Lit "."))
      with (exec NOFLAGS t (Cls (fun a => char_eq NOFLAGS a "."))).
    rewrite (rep_cls_stop NOFLAGS t)
      by (cbn [pos]; rewrite Hjq, Hc; unfold char_eq; cbn [ignorecase NOFLAGS];
          rewrite Ascii.eqb_sym; exact Hcdot).
    unfold star. rewrite exec_Rep.
    rewrite (rep_cls_stop NOFLAGS t) by (cbn [pos]; rewrite Hjq, Hc; exact Hcd).
    apply (exec_alike NOFLAGS t (Cat (opt s) (lit "mm")) (Cat (opt s) (lit "mm")))
      with (st1 := close_group n i st3) (k1 := Some);
      [ cbv [opt lit Re.s]; repeat constructor
      | cbn [close_group pos]; symmetry; exact Hjq
      | eauto
      | exact Htail ].
  - (* the digit is followed by the dot that ends the number *)
    rewrite (rep_cls_stop NOFLAGS t) by (cbn [pos]; rewrite Hdot; reflexivity).
    rewrite exec_Cat. unfold opt.
    rewrite exec_Rep.
    change (exec NOFLAGS t (Lit "."))
      with (exec NOFLAGS t (Cls (fun a => char_eq NOFLAGS a "."))).
    apply (rep_cls_more NOFLAGS t _ _ _ _ "."%char); [cbn [pos]; exact Hdot | reflexivity | discriminate |].
    cbn [option_map Nat.pred]. rewrite rep_loop_none_left.
    unfold star. rewrite exec_Rep.
    rewrite (rep_cls_stop NOFLAGS t)
      by (cbn [pos advance]; replace (S j + 1) with q by lia; rewrite Hc; exact Hcd).
    apply (exec_alike NOFLAGS t (Cat (opt s) (lit "mm")) (Cat (opt s) (lit "mm")))
      with (st1 := close_group n i st3) (k1 := Some);
      [ cbv [opt lit Re.s]; repeat constructor
      | cbn [close_group pos advance]; fold q; lia
      | eauto
      | exact Htail ].
Qed.

(** X18. Diameter and Length are not told apart by the count of digits:
    on every text for which [extract_length] gives a value,
    [extract_diameter] gives one too. *)
Theorem length_implies_diameter (text : string) :
  is_Some (extract_length text) -> is_Some (extract_diameter text).
Proof.
  unfold extract_length, extract_diameter. intros H.
  assert (Hl : is_Some (search NOFLAGS
                          (cat [Grp 1 (cat [range 4 5 d; opt (Lit "."); star d]);
                                opt s; lit "mm"]) text))
    by (destruct (search NOFLAGS _ text); [eauto | destruct H; discriminate]).
  apply length_pattern_within_diameter in Hl. destruct Hl as [m ->]. eauto.
Qed.

Lemma length_implies_diameter_witness :
  is_Some (extract_length "coil 12000.5 mm") /\ is_Some (extract_diameter "coil 12000.5 mm").
Proof.
  assert (H : is_Some (extract_length "coil 12000.5 mm")) by (vm_compute; eauto).
  split; [exact H|]. exact (length_implies_diameter _ H).
Defined.

End DigitsFacts.

(** ** Absent fields and the fallback of [main.py] *)

Module FallbackFacts.
Import PyStr Re ReMoreSpec ReFacts ReMore Main MainSpec MoreSpec MainFacts MainMore.

(** A search that succeeds matched at some position, and its match
    object shows the state the matcher ended in. *)
Lemma search_inv (fl : flags) (r : regex) (text : string) (m : match_obj) :
  search fl r text = Some m ->
  exists i st,
    match_at fl (list_ascii_of_string text) r i = Some st
    /\ m = {| m_string := text; m_start := i; m_end := pos st; m_spans := spans st |}.
Proof.
  unfold search. intros H. apply first_some_inv in H. destruct H as (i & _ & H).
  destruct (match_at _ _ _ _) as [st|] eqn:Hst; [|discriminate].
  injection H as <-. eauto.
Qed.

Lemma substring_first (text : string) :
  forall i n c,
    nth_error (list_ascii_of_string text) i = Some c ->
    exists rest, String.substring i (S n) text = String c rest.
Proof.
  induction text as [|a text IH]; intros [|i] n c;
    cbn [list_ascii_of_string nth_error String.substring]; try discriminate.
  - intros [= ->]. eauto.
  - apply IH.
Qed.

Section Forward.
Variable fl : flags.
Variable t : list ascii.

(** The matcher only moves forward. *)
Lemma rep_loop_forward (body : mstate -> cont -> option mstate) :
  (forall st k x, body st k = Some x ->
                  exists st', pos st <= pos st' /\ k st' = Some x) ->
  forall fuel lo hi st k x,
    rep_loop fuel body lo hi st k = Some x ->
    exists st', pos st <= pos st' /\ k st' = Some x.
Proof.
  intros Hb. induction fuel as [|fuel IH]; intros lo hi st k x; cbn [rep_loop].
  - destruct lo; [eauto | discriminate].
  - assert (Hstop : match lo with O => k st | S _ => None end = Some x ->
                    exists st', pos st <= pos st' /\ k st' = Some x)
      by (destruct lo; [eauto | discriminate]).
    destruct hi as [[|h]|]; [exact Hstop | |];
      (destruct (body st _) as [y|] eqn:Hy; [|exact Hstop];
       intros [= ->]; apply Hb in Hy; destruct Hy as (st1 & Hle & Hst1);
       destruct (pos st <? pos st1); [|discriminate];
       apply IH in Hst1; destruct Hst1 as (st' & Hle' & Hk);
       exists st'; split; [lia | exact Hk]).
Qed.

Lemma exec_forward (r : regex) :
  forall st k x, exec fl t r st k = Some x ->
                 exists st', pos st <= pos st' /\ k st' = Some x.
Proof.
  induction r as [| c | p | | r1 IH1 r2 IH2 | r1 IH1 r2 IH2 | lo hi r IH
                  | n r IH | n | | |];
    intros st k x; cbn [exec].
  - eauto.
  - destruct (nth_error t (pos st)); [|discriminate].
    destruct (char_eq _ _ _); [|discriminate].
    intros H. exists (advance 1 st). cbn [advance pos]. split; [lia | exact H].
  - destruct (nth_error t (pos st)); [|discriminate].
    destruct (p _); [|discriminate].
    intros H. exists (advance 1 st). cbn [advance pos]. split; [lia | exact H].
  - destruct (nth_error t (pos st)); [|discriminate].
    destruct (Ascii.eqb _ _); [discriminate|].
    intros H. exists (advance 1 st). cbn [advance pos]. split; [lia | exact H].
  - intros H. apply IH1 in H. destruct H as (st1 & Hle & H).
    apply IH2 in H. destruct H as (st' & Hle' & H).
    exists st'. split; [lia | exact H].
  - destruct (exec fl t r1 st k) eqn:H1.
    + intros [= ->]. apply IH1 in H1. exact H1.
    + apply IH2.
  - apply rep_loop_forward. exact IH.
  - intros H. apply IH in H. destruct H as (st' & Hle & H).
    exists (close_group n (pos st) st'). split; [exact Hle | exact H].
  - destruct (span_of n (spans st)) as [[i j]|]; [|discriminate].
    destruct (_ && _); [|discriminate].
    intros H. eexists. split; [|exact H]. cbn [advance pos]. lia.
  - destruct (at_bol _ _ _); [eauto | discriminate].
  - destruct (at_eol _ _ _); [eauto | discriminate].
  - destruct (at_wb _ _); [eauto | discriminate].
Qed.

Lemma exec_Alt_inv (r1 r2 : regex) (st : mstate) (k : cont) (x : mstate) :
  exec fl t (Alt r1 r2) st k = Some x ->
  exec fl t r1 st k = Some x \/ exec fl t r2 st k = Some x.
Proof.
  cbn [exec]. destruct (exec fl t r1 st k); [intros [= ->]; auto | auto].
Qed.

Lemma exec_Wb (st : mstate) (k : cont) :
  exec fl t Wb st k = if at_wb t (pos st) then k st else None.
Proof. reflexivity. Qed.

(** What a pattern that begins with a literal leaves behind: the first
    character of the literal at the start, and an end further on. *)
Lemma literal_first (c : ascii) (w : string) (rest : regex) (st : mstate)
    (k : cont) (x : mstate) :
  exec fl t (Cat (lit (String c w)) rest) st k = Some x ->
  exists a st', nth_error t (pos st) = Some a /\ char_eq fl a c = true
                /\ pos st < pos st' /\ k st' = Some x.
Proof.
  rewrite exec_Cat, exec_lit.
  destruct (has_at fl t (pos st) (String c w)) eqn:Hh; [|discriminate].
  intros H. apply exec_forward in H. destruct H as (st' & Hle & Hk).
  cbn [has_at] in Hh.
  destruct (nth_error t (pos st)) as [a|]; [|discriminate].
  apply andb_true_iff in Hh. destruct Hh as [Ha _].
  exists a, st'. repeat split; try assumption.
  cbn [advance pos String.length] in Hle. lia.
Qed.

End Forward.

(** *** No extractor returns the empty string or the sentinel *)

Lemma mm_value (x : string) : x ++ " mm" <> EmptyString /\ x ++ " mm" <> "-".
Proof.
  destruct x as [|a [|b x]].
  - split; discriminate.
  - change (String a EmptyString ++ " mm") with (String a " mm"). split; discriminate.
  - change (String a (String b x) ++ " mm") with (String a (String b (x ++ " mm"))).
    split; discriminate.
Qed.

Lemma capital_first (c : ascii) (rest : string) :
  is_space (to_upper c) = false -> to_upper c <> "-"%char ->
  let v := replace " " EmptyString (upper (String c rest)) in
  v <> EmptyString /\ v <> "-".
Proof.
  intros Hsp Hd v. subst v. unfold upper, replace. cbn [map_chars].
  rewrite PreprocessFacts.replace_from_char.
  destruct (Ascii.eqb " " (to_upper c)) eqn:E.
  - apply Ascii.eqb_eq in E. rewrite <- E in Hsp. discriminate.
  - split; [discriminate|]. intros [= H _]. contradiction.
Qed.

Lemma grade_value (text v : string) :
  extract_grade text = Some v -> v <> EmptyString /\ v <> "-".
Proof.
  unfold extract_grade. cbv zeta.
  destruct (search NOFLAGS _ text) as [m|] eqn:Hm; [|discriminate].
  intros [= <-]. apply search_inv in Hm. destruct Hm as (i & st & Hst & ->).
  set (t := list_ascii_of_string text) in *.
  unfold match_at in Hst. rewrite exec_Grp in Hst. cbn [alt cat pos] in Hst.
  assert (Hc : exists c st', nth_error t i = Some c
                 /\ (c = "f" \/ c = "4" \/ c = "5")%char
                 /\ i < pos st' /\ st = close_group 1 i st').
  { apply exec_Alt_inv in Hst. destruct Hst as [H | H]; [|apply exec_Alt_inv in H; destruct H as [H | H]].
    - apply literal_first in H. destruct H as (a & st' & Ha & Hc & Hlt & Hk).
      unfold char_eq in Hc. cbn [ignorecase NOFLAGS] in Hc. apply Ascii.eqb_eq in Hc.
      injection Hk as <-. exists a, st'. cbn [pos] in *. auto.
    - rewrite exec_Cat, exec_Wb in H. destruct (at_wb t _); [|discriminate].
      apply literal_first in H. destruct H as (a & st' & Ha & Hc & Hlt & Hk).
      unfold char_eq in Hc. cbn [ignorecase NOFLAGS] in Hc. apply Ascii.eqb_eq in Hc.
      injection Hk as <-. exists a, st'. cbn [pos] in *. auto.
    - rewrite exec_Cat, exec_Wb in H. destruct (at_wb t _); [|discriminate].
      apply literal_first in H. destruct H as (a & st' & Ha & Hc & Hlt & Hk).
      unfold char_eq in Hc. cbn [ignorecase NOFLAGS] in Hc. apply Ascii.eqb_eq in Hc.
      injection Hk as <-. exists a, st'. cbn [pos] in *. auto. }
  destruct Hc as (c & st' & Hc & Hcase & Hlt & ->).
  cbn [group m_spans m_string close_group spans span_of Nat.eqb].
  destruct (pos st' - i) as [|n] eqn:Hn; [lia|].
  destruct (substring_first text i n c Hc) as [rest ->].
  apply capital_first;
    destruct Hcase as [-> | [-> | ->]]; try reflexivity; discriminate.
Qed.

Lemma standard_value (text v : string) :
  extract_standard text = Some v -> v <> EmptyString /\ v <> "-".
Proof.
  unfold extract_standard. cbv zeta.
  destruct (search NOFLAGS _ text) as [m|] eqn:Hm; [|discriminate].
  intros [= <-]. apply search_inv in Hm. destruct Hm as (i & st & Hst & ->).
  set (t := list_ascii_of_string text) in *.
  unfold match_at in Hst. cbn [cat] in Hst.
  apply literal_first in Hst. destruct Hst as (a & st' & Ha & Hc & Hlt & Hk).
  unfold char_eq in Hc. cbn [ignorecase NOFLAGS] in Hc. apply Ascii.eqb_eq in Hc.
  injection Hk as <-. subst a. cbn [pos] in *.
  cbn [group m_start m_end m_string].
  destruct (pos st' - i) as [|n] eqn:Hn; [lia|].
  destruct (substring_first text i n _ Ha) as [rest ->].
  unfold upper. cbn [map_chars]. split; discriminate.
Qed.

(** Every value an extractor returns is a string other than the empty
    one and other than the sentinel. *)
Lemma extracted_value (af : string * (string -> option string)) (text v : string) :
  In af aspects -> snd af text = Some v -> v <> EmptyString /\ v <> "-".
Proof.
  unfold aspects. cbn [In].
  intros [<- | [<- | [<- | [<- | [<- | [<- | []]]]]]]; cbn [snd].
  - apply grade_value.
  - unfold extract_diameter. cbv zeta.
    destruct (search NOFLAGS _ text); [|discriminate].
    intros [= <-]. apply mm_value.
  - unfold extract_material.
    repeat match goal with |- context [if ?b then _ else _] => destruct b end;
      try discriminate; intros [= <-]; split; discriminate.
  - unfold extract_form.
    repeat match goal with |- context [if ?b then _ else _] => destruct b end;
      try discriminate; intros [= <-]; split; discriminate.
  - unfold extract_length. cbv zeta.
    destruct (search NOFLAGS _ text); [|discriminate].
    intros [= <-]. apply mm_value.
  - apply standard_value.
Qed.

(** A side of a row shows the sentinel exactly when the extractor found
    nothing. *)
Lemma or_dash_sentinel (af : string * (string -> option string)) (text : string) :
  In af aspects -> (or_dash (snd af text) = "-" <-> snd af text = None).
Proof.
  intros Hin. split.
  - destruct (snd af text) as [v|] eqn:Hv; [|reflexivity].
    destruct (extracted_value af text v Hin Hv) as [Hne Hnd].
    unfold or_dash. destruct v as [|a v]; [contradiction|].
    cbn [truthy text_of default]. intros H. contradiction.
  - intros ->. reflexivity.
Qed.

Section Oracles.
Variable fuzz_ratio : string -> string -> float.
Context {tensor : Type}.
Variable encode : string -> tensor.
Variable cos_sim : tensor -> tensor -> float.
Variable post : request -> Py.exn + response.

(** A row has the sentinel exactly when a field is absent. *)
Lemma sentinel_iff_absent (string1 string2 : string) :
  Exists has_sentinel (rows_for fuzz_ratio encode cos_sim string1 string2)
  <-> field_absent string1 string2.
Proof.
  unfold rows_for, field_absent. rewrite compare_aspects_rows. cbn [app].
  rewrite List.Exists_exists. split.
  - intros (r & Hin & Hr). apply in_map_iff in Hin.
    destruct Hin as (af & <- & Hin). exists af. split; [exact Hin|].
    cbn [has_sentinel] in Hr.
    destruct Hr as [H | H]; apply or_dash_sentinel in H; auto.
  - intros (af & Hin & Hnone).
    eexists. split; [apply in_map_iff; exists af; split; [reflexivity | exact Hin]|].
    cbn [has_sentinel].
    destruct Hnone as [H | H]; [left | right]; apply or_dash_sentinel; assumption.
Qed.

(** C6. The fallback is called exactly when some field is absent.  A
    row of the table shows the sentinel on a side exactly when the
    extractor of its aspect found nothing in that input; when each of
    the six extractors finds a value in both inputs the log of
    [compare_strings] holds no request to the endpoint, and when one
    of them finds nothing in an input it holds exactly one request,
    for the two original strings. *)
Theorem fallback_iff_missing (string1 string2 : string) :
  let results := rows_for fuzz_ratio encode cos_sim string1 string2 in
  let l := log (compare_strings fuzz_ratio encode cos_sim post string1 string2) in
  In (EvTable results) l
  /\ (Exists has_sentinel results <-> field_absent string1 string2)
  /\ (field_absent string1 string2 ->
      posts l = [EvPost (groq_request string1 string2)])
  /\ (~ field_absent string1 string2 -> posts l = []).
Proof.
  intros results l.
  destruct (posts_iff_sentinel fuzz_ratio encode cos_sim post string1 string2)
    as (Htable & Hsome & Hnone).
  pose proof (sentinel_iff_absent string1 string2) as Hiff.
  split; [exact Htable|]. split; [exact Hiff|]. split.
  - intros H. apply Hsome, Hiff, H.
  - intros H. apply Hnone. intros Hs. apply H, Hiff, Hs.
Qed.

End Oracles.

End FallbackFacts.
